(** * Rectangle detection and rectification: [rectangle.py]

    A shallow embedding of [order_points], [four_point_transform] and
    [rectangle], and the properties of the design document that can be
    settled on it.

    Numbers.  The only caller in the repository hands [order_points] the
    result of [cv2.approxPolyDP] reshaped to 4x2, an [int32] array of
    pixel coordinates.  Coordinates are therefore integers ([Z]); the
    [int32] subtraction of [np.diff] is written with its wrap-around, and
    the [float32] array [rect] is modelled exactly: an integer stored in a
    [float32] is rounded to a 24-bit significand (round to nearest, ties
    to even), and so is every [float32] operation on integer-valued
    operands.  The square root is the correctly rounded one.

    Library calls ([cv2.*], [imutils.grab_contours]) are the fields of a
    record [Vision]; the buffers they read and write live in a store, so
    that aliasing between the caller's image and the returned images is
    visible. *)

From Stdlib Require Import ZArith QArith Reals Lia List Permutation Sorted.
From stdpp Require Import base option list gmap sorting.

Local Open Scope Z_scope.

(** ** Errors *)

Inductive exn :=
  | ValueError      (* numpy / tuple unpacking *)
  | IndexError
  | CvError         (* cv2.error raised inside a library call *)
  | NoBuffer        (* a location outside the store; cannot arise from Python *)
  | GrabError.      (* imutils.grab_contours: unexpected tuple length *)

Inductive res (A : Type) :=
  | Ok (a : A)
  | Raise (e : exn).
Arguments Ok {A} a.
Arguments Raise {A} e.

#[global] Instance res_ret : MRet res := fun A a => Ok a.
#[global] Instance res_bind : MBind res := fun A B f m =>
  match m with
  | Ok a => f a
  | Raise e => Raise e
  end.

Definition is_Raise {A} (r : res A) : Prop := ∃ e, r = Raise e.

(** ** Machine numbers *)

Module Num.

(** Two's-complement wrap-around of a [w]-bit signed integer. *)
Definition wrap (w : Z) (z : Z) : Z :=
  (z + 2 ^ (w - 1)) mod 2 ^ w - 2 ^ (w - 1).

(** The value an integer takes when stored in a float32: nearest value with
    a 24-bit significand, ties to the even significand. *)
Definition f32_round (z : Z) : Z :=
  let n := Z.abs z in
  let e := Z.log2 n - 23 in
  if e <=? 0 then z
  else
    let q := n / 2 ^ e in
    let r := n mod 2 ^ e in
    let h := 2 ^ (e - 1) in
    let q' := if (h <? r) || ((r =? h) && Z.odd q) then q + 1 else q in
    Z.sgn z * (q' * 2 ^ e).

Definition f32_sub (a b : Z) : Z := f32_round (a - b).
Definition f32_add (a b : Z) : Z := f32_round (a + b).
(** [a ** 2], taken as the correctly rounded product. *)
Definition f32_pow2 (a : Z) : Z := f32_round (a * a).

(** A non-negative float32 that need not be an integer: [(m, sh)] stands
    for [m / 2^sh] when [0 <= sh] and for [m * 2^(-sh)] otherwise. *)
Definition dyadic := (Z * Z)%type.

(** [np.sqrt] on a non-negative integer-valued float32: the correctly
    rounded square root, with a 24-bit significand [m]. *)
Definition np_sqrt (n : Z) : dyadic :=
  if n <=? 0 then (0, 0)
  else
    let k := Z.log2 (Z.sqrt n) + 1 in
    let sh := 24 - k in
    if 0 <=? sh then
      let N := n * 4 ^ sh in
      let s := Z.sqrt N in
      (if s <? N - s * s then s + 1 else s, sh)
    else
      let t := - sh in
      let s := Z.sqrt (n / 4 ^ t) in
      (if (2 * s + 1) * (2 * s + 1) * 4 ^ (t - 1) <? n then s + 1 else s, sh).

(** Python's [int()] on a non-negative float: truncation. *)
Definition py_int (d : dyadic) : Z :=
  let '(m, sh) := d in
  if 0 <=? sh then m / 2 ^ sh else m * 2 ^ (- sh).

End Num.

(** ** Points and [order_points] *)

(** A row of the int32 array [pts]: [(x, y)]. *)
Definition Point := (Z * Z)%type.
(** A row of a float32 array holding integers. *)
Definition FPoint := (Z * Z)%type.

Definition to_f32 (p : Point) : FPoint := (Num.f32_round p.1, Num.f32_round p.2).

(** One entry of [pts.sum(axis=1)]: summed in the platform integer (int64),
    which two int32 entries cannot overflow. *)
Definition psum (p : Point) : Z := Num.wrap 64 (p.1 + p.2).
(** One entry of [np.diff(pts, axis=1)]: [pts[:,1] - pts[:,0]] in int32. *)
Definition pdiff (p : Point) : Z := Num.wrap 32 (p.2 - p.1).

(** [np.argmin] / [np.argmax]: a left-to-right scan that moves only on a
    strict improvement, so the first extremal index is returned. *)
Fixpoint argmin_from (l : list Z) (i bi : nat) (bv : Z) : nat :=
  match l with
  | [] => bi
  | v :: l' => if v <? bv then argmin_from l' (S i) i v
               else argmin_from l' (S i) bi bv
  end.

Fixpoint argmax_from (l : list Z) (i bi : nat) (bv : Z) : nat :=
  match l with
  | [] => bi
  | v :: l' => if bv <? v then argmax_from l' (S i) i v
               else argmax_from l' (S i) bi bv
  end.

Definition argmin (l : list Z) : res nat :=
  match l with
  | [] => Raise ValueError
  | v :: l' => Ok (argmin_from l' 1 0 v)
  end.

Definition argmax (l : list Z) : res nat :=
  match l with
  | [] => Raise ValueError
  | v :: l' => Ok (argmax_from l' 1 0 v)
  end.

(** [a[i]] on a list-like array. *)
Definition getitem {A} (l : list A) (i : nat) : res A :=
  match l !! i with
  | Some a => Ok a
  | None => Raise IndexError
  end.

Definition order_points (pts : list Point) : res (list FPoint) :=
  let rect := replicate 4 ((0, 0) : FPoint) in
  let s := psum <$> pts in
  i ← argmin s; p ← getitem pts i;
  let rect := <[0%nat := to_f32 p]> rect in
  i ← argmax s; p ← getitem pts i;
  let rect := <[2%nat := to_f32 p]> rect in
  let diff := pdiff <$> pts in
  i ← argmin diff; p ← getitem pts i;
  let rect := <[1%nat := to_f32 p]> rect in
  i ← argmax diff; p ← getitem pts i;
  let rect := <[3%nat := to_f32 p]> rect in
  mret rect.

(** ** Images, buffers and the store *)

Definition Pixel := list Z.
Definition Image := list (list Pixel).
Definition Contour := list Point.
Definition Matrix := list (list Q).

Definition loc := positive.

(** A computation that reads and writes image buffers and may raise. *)
Definition M (A : Type) : Type := gmap loc Image → res (A * gmap loc Image).

#[global] Instance M_ret : MRet M := fun A a σ => Ok (a, σ).
#[global] Instance M_bind : MBind M := fun A B f m σ =>
  match m σ with
  | Ok (a, σ') => f a σ'
  | Raise e => Raise e
  end.

Definition lift {A} (r : res A) : M A := fun σ =>
  match r with
  | Ok a => Ok (a, σ)
  | Raise e => Raise e
  end.

Definition load (l : loc) : M Image := fun σ =>
  match σ !! l with
  | Some im => Ok (im, σ)
  | None => Raise NoBuffer
  end.

Definition store_at (l : loc) (im : Image) : M unit := fun σ =>
  Ok (tt, <[l := im]> σ).

Definition alloc (im : Image) : M loc := fun σ =>
  let l := fresh (dom σ) in Ok (l, <[l := im]> σ).

(** ** The vision library *)

Inductive ColorCode := COLOR_BGR2GRAY.
Inductive RetrMode := RETR_TREE.
Inductive ChainMode := CHAIN_APPROX_SIMPLE.

(** The calls [rectangle.py] makes into [cv2] and [imutils].  Those that
    validate an image or a matrix may raise; the contour measures are total
    on the contours [findContours] returns.  Python floats are represented
    by the rationals they denote. *)
Record Vision := {
  FoundContours : Type;
  cvtColor : Image → ColorCode → res Image;
  Canny : Image → Z → Z → res Image;
  findContours : Image → RetrMode → ChainMode → res FoundContours;
  grab_contours : FoundContours → res (list Contour);
  contourArea : Contour → Q;
  arcLength : Contour → bool → Q;
  approxPolyDP : Contour → Q → bool → Contour;
  isContourConvex : Contour → bool;
  drawContours : Image → list Contour → Z → Z * Z * Z → Z → res Image;
  getPerspectiveTransform : list FPoint → list FPoint → res Matrix;
  warpPerspective : Image → Matrix → Z * Z → res Image;
}.

(** ** [four_point_transform] *)

(** [np.sqrt(((a[0] - b[0]) ** 2) + ((a[1] - b[1]) ** 2))] on float32. *)
Definition np_dist (a b : FPoint) : Num.dyadic :=
  Num.np_sqrt (Num.f32_add (Num.f32_pow2 (Num.f32_sub a.1 b.1))
                           (Num.f32_pow2 (Num.f32_sub a.2 b.2))).

Definition maxWidth (tl tr br bl : FPoint) : Z :=
  let widthA := np_dist br bl in
  let widthB := np_dist tr tl in
  Z.max (Num.py_int widthA) (Num.py_int widthB).

Definition maxHeight (tl tr br bl : FPoint) : Z :=
  let heightA := np_dist tr br in
  let heightB := np_dist tl bl in
  Z.max (Num.py_int heightA) (Num.py_int heightB).

Definition dst_corners (w h : Z) : list FPoint :=
  to_f32 <$> [(0, 0); (w - 1, 0); (w - 1, h - 1); (0, h - 1)].

(** The two library calls that end [four_point_transform]: solve for the
    transform, resample the buffer [image] into a new buffer. *)
Definition warp_onto (V : Vision) (image : loc) (rect : list FPoint) (w h : Z)
  : M loc :=
  let dst := dst_corners w h in
  m ← lift (getPerspectiveTransform V rect dst);
  im ← load image;
  warped ← lift (warpPerspective V im m (w, h));
  alloc warped.

Definition four_point_transform (V : Vision) (image : loc) (pts : list Point)
  : M loc :=
  rect ← lift (order_points pts);
  match rect with
  | [tl; tr; br; bl] =>
      warp_onto V image rect (maxWidth tl tr br bl) (maxHeight tl tr br bl)
  | _ => lift (Raise ValueError)
  end.

(** ** [rectangle] *)

(** One step of Python's stable sort with [reverse=True]: [x] precedes
    everything of [l] in the original order, so it goes in front of the
    first element whose key is not greater. *)
Fixpoint insert_desc {A} (key : A → Q) (x : A) (l : list A) : list A :=
  match l with
  | [] => [x]
  | y :: l' => if Qle_bool (key y) (key x) then x :: l
               else y :: insert_desc key x l'
  end.

(** [sorted(l, key=key, reverse=True)] *)
Definition sorted_desc {A} (key : A → Q) (l : list A) : list A :=
  foldr (insert_desc key) [] l.

(** The approximation computed in the loop body for one contour.  The
    tolerance [0.02 * peri] is written as the exact product; it only ever
    travels to [approxPolyDP]. *)
Definition approx_of (V : Vision) (c : Contour) : Contour :=
  let peri := arcLength V c true in
  approxPolyDP V c ((2 # 100) * peri)%Q true.

(** [len(approx) == 4 and cv2.isContourConvex(approx)] *)
Definition accepted (V : Vision) (approx : Contour) : bool :=
  (length approx =? 4)%nat && isContourConvex V approx.

(** The [for c in cnts] loop with its [break]. *)
Fixpoint scan (V : Vision) (cnts : list Contour) : option Contour :=
  match cnts with
  | [] => None
  | c :: rest =>
      let approx := approx_of V c in
      if accepted V approx then Some approx else scan V rest
  end.

(** [a.reshape(4, 2)] of an array of shape (n, 1, 2). *)
Definition reshape_4_2 (c : Contour) : res (list Point) :=
  if (length c =? 4)%nat then Ok c else Raise ValueError.

(** [cv2.drawContours(img, ...)] draws into the buffer it is given and
    returns that same buffer. *)
Definition drawContours_on (V : Vision) (img : loc) (cs : list Contour)
    (idx : Z) (color : Z * Z * Z) (thickness : Z) : M loc :=
  im ← load img;
  im' ← lift (drawContours V im cs idx color thickness);
  _ ← store_at img im';
  mret img.

(** [a.copy()]: a new array with the same contents. *)
Definition ndarray_copy (a : Image) : Image := a.

(** [ranked]: [sorted(cnts, key=cv2.contourArea, reverse=True)[:5]] *)
Definition ranked (V : Vision) (cnts : list Contour) : list Contour :=
  take 5 (sorted_desc (contourArea V) cnts).

(** Everything up to the ranking: the contours of the image. *)
Definition contours_of (V : Vision) (im : Image) : res (list Contour) :=
  gray ← cvtColor V im COLOR_BGR2GRAY;
  edged ← Canny V gray 50 100;
  found ← findContours V (ndarray_copy edged) RETR_TREE CHAIN_APPROX_SIMPLE;
  grab_contours V found.

Definition rectangle (V : Vision) (img : loc) : M (loc * loc) :=
  im ← load img;
  cnts ← lift (contours_of V im);
  let cnts := ranked V cnts in
  match scan V cnts with
  | Some screenCnt =>
      contour_img ← drawContours_on V img [screenCnt] 0 (0, 255, 0) 3;
      pts ← lift (reshape_4_2 screenCnt);
      warped_img ← four_point_transform V img pts;
      mret (contour_img, warped_img)
  | None => mret (img, img)
  end.

(** ** Vocabulary of the properties *)

(** [p] is the first point of [pts], in input order, at which [f] is
    least (greatest). *)
Definition first_min_by (f : Point → Z) (pts : list Point) (p : Point) : Prop :=
  ∃ i : nat, pts !! i = Some p
    ∧ (∀ q, q ∈ pts → f p <= f q)
    ∧ (∀ (j : nat) q, pts !! j = Some q → (j < i)%nat → f p < f q).

Definition first_max_by (f : Point → Z) (pts : list Point) (p : Point) : Prop :=
  ∃ i : nat, pts !! i = Some p
    ∧ (∀ q, q ∈ pts → f q <= f p)
    ∧ (∀ (j : nat) q, pts !! j = Some q → (j < i)%nat → f q < f p).

(** Index [i] holds the least value of [l], and no earlier index does. *)
Definition first_least (l : list Z) (i : nat) : Prop :=
  ∃ v, l !! i = Some v
    ∧ (∀ (j : nat) w, l !! j = Some w → v <= w)
    ∧ (∀ (j : nat) w, l !! j = Some w → (j < i)%nat → v < w).

(** The role assignment as the design document words it
    (rows of the result: top-left, top-right, bottom-right, bottom-left). *)
Definition documented_roles (pts : list Point) (rect : list FPoint) : Prop :=
  ∃ tl tr br bl, rect = [tl; tr; br; bl]
    ∧ first_min_by (λ p, p.1 + p.2) pts tl
    ∧ first_max_by (λ p, p.1 + p.2) pts br
    ∧ first_min_by (λ p, p.1 - p.2) pts tr
    ∧ first_max_by (λ p, p.1 - p.2) pts bl.

(** The same with the two roles of [x - y] exchanged. *)
Definition exchanged_roles (pts : list Point) (rect : list FPoint) : Prop :=
  ∃ tl tr br bl, rect = [tl; tr; br; bl]
    ∧ first_min_by (λ p, p.1 + p.2) pts tl
    ∧ first_max_by (λ p, p.1 + p.2) pts br
    ∧ first_max_by (λ p, p.1 - p.2) pts tr
    ∧ first_min_by (λ p, p.1 - p.2) pts bl.

(** [p] is a point of [pts] at which [f] is least (greatest). *)
Definition least_by (f : Point → Z) (pts : list Point) (p : Point) : Prop :=
  p ∈ pts ∧ ∀ q, q ∈ pts → f p <= f q.
Definition greatest_by (f : Point → Z) (pts : list Point) (p : Point) : Prop :=
  p ∈ pts ∧ ∀ q, q ∈ pts → f q <= f p.

(** Each of the four extremal choices of [order_points] is attained by one
    point only. *)
Definition unique_extremes (pts : list Point) : Prop :=
  (∀ p q, least_by psum pts p → least_by psum pts q → p = q)
  ∧ (∀ p q, greatest_by psum pts p → greatest_by psum pts q → p = q)
  ∧ (∀ p q, least_by pdiff pts p → least_by pdiff pts q → p = q)
  ∧ (∀ p q, greatest_by pdiff pts p → greatest_by pdiff pts q → p = q).

(** Four corners, listed around the boundary, of a rectangle with sides of
    positive length: opposite sides equal and parallel, a right angle. *)
Definition is_rectangle (pts : list Point) : Prop :=
  match pts with
  | [a; b; c; d] =>
      b.1 - a.1 = c.1 - d.1 ∧ b.2 - a.2 = c.2 - d.2
      ∧ (b.1 - a.1) * (d.1 - a.1) + (b.2 - a.2) * (d.2 - a.2) = 0
      ∧ a ≠ b ∧ a ≠ d
  | _ => False
  end.

(** A square standing on a corner, and the same corners listed backwards. *)
Definition diamond : list Point := [(1, 0); (2, 1); (1, 2); (0, 1)].
Definition diamond_rev : list Point := [(0, 1); (1, 2); (2, 1); (1, 0)].

(** An axis-aligned 10 x 5 rectangle. *)
Definition upright : list Point := [(0, 0); (10, 0); (10, 5); (0, 5)].

(** *** Sizes *)

(** Squared Euclidean distance, and the distance itself. *)
Definition d2 (a b : FPoint) : Z :=
  (a.1 - b.1) * (a.1 - b.1) + (a.2 - b.2) * (a.2 - b.2).

Definition distance (a b : FPoint) : R :=
  sqrt ((IZR a.1 - IZR b.1) * (IZR a.1 - IZR b.1)
        + (IZR a.2 - IZR b.2) * (IZR a.2 - IZR b.2)).

(** Width and height as the design document gives them. *)
Definition documented_width (tl tr br bl : FPoint) : Z :=
  Zfloor (Rmax (distance br bl) (distance tr tl)).
Definition documented_height (tl tr br bl : FPoint) : Z :=
  Zfloor (Rmax (distance tr br) (distance tl bl)).

(** The four sides that enter the size are shorter than 4096 pixels. *)
Definition short_sides (tl tr br bl : FPoint) : Prop :=
  d2 br bl < 2 ^ 24 ∧ d2 tr tl < 2 ^ 24 ∧ d2 tr br < 2 ^ 24 ∧ d2 tl bl < 2 ^ 24.

(** Twice the signed area of the triangle [a b c]. *)
Definition cross (a b c : Point) : Z :=
  (b.1 - a.1) * (c.2 - a.2) - (b.2 - a.2) * (c.1 - a.1).

(** Four points, listed around the boundary, of a strictly convex
    quadrilateral: every corner turns the same way. *)
Definition strictly_convex (pts : list Point) : Prop :=
  match pts with
  | [a; b; c; d] =>
      (0 < cross a b c ∧ 0 < cross b c d ∧ 0 < cross c d a ∧ 0 < cross d a b)
      ∨ (cross a b c < 0 ∧ cross b c d < 0 ∧ cross c d a < 0 ∧ cross d a b < 0)
  | _ => False
  end.

(** No two points equal, no three on a line. *)
Definition nondegenerate (pts : list Point) : Prop :=
  match pts with
  | [a; b; c; d] =>
      NoDup pts
      ∧ cross a b c ≠ 0 ∧ cross a b d ≠ 0 ∧ cross a c d ≠ 0 ∧ cross b c d ≠ 0
  | _ => False
  end.

Definition degenerate (pts : list Point) : Prop :=
  length pts = 4%nat ∧ ¬ nondegenerate pts.

(** Four points, one with a coordinate that no float32 holds. *)
Definition beyond_f32 : list Point := [(16777217, 0); (0, 0); (1, 1); (0, 1)].

(** A thin kite standing on a corner. *)
Definition kite : list Point := [(5, 0); (6, 8); (5, 20); (4, 5)].

(** A quadrilateral 5000 pixels wide. *)
Definition wide : list Point := [(0, 0); (5000, 100); (5000, 3100); (0, 3000)].

(** *** A small executable library

    Enough of a vision library to run the pipeline on concrete inputs:
    the contours are given, every contour is its own approximation,
    drawing paints the whole buffer, warping returns a blank buffer of the
    requested size. *)
Definition toy_convex (c : Contour) : bool :=
  match c with
  | [a; b; c; d] =>
      ((0 <? cross a b c) && (0 <? cross b c d)
       && (0 <? cross c d a) && (0 <? cross d a b))
      || ((cross a b c <? 0) && (cross b c d <? 0)
          && (cross c d a <? 0) && (cross d a b <? 0))
  | _ => false
  end.

Definition toy (cs : list Contour) : Vision := {|
  FoundContours := list Contour;
  cvtColor im _ := Ok im;
  Canny im _ _ := Ok im;
  findContours _ _ _ := Ok cs;
  grab_contours found := Ok found;
  contourArea c := inject_Z (Z.of_nat (length c));
  arcLength c _ := inject_Z (Z.of_nat (length c));
  approxPolyDP c _ _ := c;
  isContourConvex := toy_convex;
  drawContours im _ _ color _ :=
    Ok (fmap (M := list)
          (fmap (M := list) (λ _ : Pixel, [color.1.1; color.1.2; color.2])) im);
  getPerspectiveTransform _ _ := Ok [];
  warpPerspective _ _ size :=
    Ok (replicate (Z.to_nat size.2) (replicate (Z.to_nat size.1) [0; 0; 0]));
|}.

(** A one-pixel black image in buffer 1. *)
Definition one_pixel : gmap loc Image := {[ 1%positive := [[[0; 0; 0]]] ]}.

(** The contents of the two buffers a run of [rectangle] returns. *)
Definition outputs (r : res (loc * loc * gmap loc Image))
  : res (option Image * option Image) :=
  match r with
  | Ok ((annotated, warped), σ) => Ok (σ !! annotated, σ !! warped)
  | Raise e => Raise e
  end.

(** No candidate of [l] has a four-vertex convex approximation. *)
Definition none_qualifies (V : Vision) (l : list Contour) : Prop :=
  ∀ c, c ∈ l →
    ¬ (length (approx_of V c) = 4%nat ∧ isContourConvex V (approx_of V c) = true).

(** Pixel coordinates that a float32 holds exactly. *)
Definition pixel (p : Point) : Prop :=
  0 <= p.1 < 2 ^ 24 ∧ 0 <= p.2 < 2 ^ 24.

(** *** Vocabulary of the further properties *)

(** The points of [pts] moved by the vector [t]. *)
Definition translate (t : Point) (pts : list Point) : list Point :=
  (λ p, (p.1 + t.1, p.2 + t.2)) <$> pts.

(** The corners of the axis-aligned rectangle at [(x, y)], [w] wide and [h]
    high, in the order top-left, top-right, bottom-right, bottom-left. *)
Definition axis_rect (x y w h : Z) : list Point :=
  [(x, y); (x + w, y); (x + w, y + h); (x, y + h)].

(** The points of [pts] mirrored in the main diagonal: x and y exchanged. *)
Definition transpose (pts : list Point) : list Point :=
  (λ p, (p.2, p.1)) <$> pts.

(** A row whose two entries are int32 values. *)
Definition int32_point (p : Point) : Prop :=
  - 2 ^ 31 <= p.1 < 2 ^ 31 ∧ - 2 ^ 31 <= p.2 < 2 ^ 31.

(** A contour with three vertices. *)
Definition triangle : Contour := [(0, 0); (4, 0); (0, 3)].

(** [c] has a four-vertex convex approximation. *)
Definition qualifies (V : Vision) (c : Contour) : Prop :=
  length (approx_of V c) = 4%nat ∧ isContourConvex V (approx_of V c) = true.

(** *** Proof steps used more than once *)

Ltac split_members :=
  repeat match goal with
  | H : _ ∈ _ :: _ |- _ => apply elem_of_cons in H as [->|H]
  | H : _ ∈ [] |- _ => by apply elem_of_nil in H
  end.

Ltac pixels := repeat constructor; unfold pixel; simpl; lia.

(** * Properties *)

(** ** Machine numbers *)

Example f32_round_tie : Num.f32_round 16785409 = 16785408.
Proof. reflexivity. Qed.

Example f32_round_negative : Num.f32_round (- 33554435) = - 33554436.
Proof. reflexivity. Qed.

Example np_sqrt_two : Num.np_sqrt 2 = (11863283, 23).
Proof. reflexivity. Qed.

Example np_sqrt_perfect : Num.py_int (Num.np_sqrt 49) = 7.
Proof. reflexivity. Qed.

Example wrap_overflow : Num.wrap 32 (2 ^ 31) = - 2 ^ 31.
Proof. reflexivity. Qed.

Lemma wrap_id w z : 0 < w → - 2 ^ (w - 1) <= z < 2 ^ (w - 1) → Num.wrap w z = z.
Proof.
  intros Hw Hz. unfold Num.wrap.
  assert (2 ^ w = 2 * 2 ^ (w - 1)) as E.
  { rewrite <- Z.pow_succ_r by lia. f_equal. lia. }
  rewrite Z.mod_small; lia.
Qed.

Lemma f32_round_small z : Z.abs z < 2 ^ 24 → Num.f32_round z = z.
Proof.
  intros Hz. unfold Num.f32_round.
  destruct (Z.eq_dec z 0) as [->|Hne]; [reflexivity|].
  assert (Z.log2 (Z.abs z) < 24) by (apply Z.log2_lt_pow2; lia).
  destruct (Z.leb_spec (Z.log2 (Z.abs z) - 23) 0); [reflexivity | lia].
Qed.

Lemma to_f32_pixel p : pixel p → to_f32 p = p.
Proof.
  destruct p as [x y]. intros [Hx Hy]. simpl in *. unfold to_f32. simpl.
  rewrite !f32_round_small by lia. reflexivity.
Qed.

Lemma psum_pixel p : pixel p → psum p = p.1 + p.2.
Proof.
  intros [Hx Hy]. unfold psum. apply wrap_id; [lia|].
  change (2 ^ (64 - 1)) with 9223372036854775808.
  change (2 ^ 24) with 16777216 in *. lia.
Qed.

Lemma pdiff_pixel p : pixel p → pdiff p = p.2 - p.1.
Proof.
  intros [Hx Hy]. unfold pdiff. apply wrap_id; [lia|].
  change (2 ^ (32 - 1)) with 2147483648.
  change (2 ^ 24) with 16777216 in *. lia.
Qed.

(** ** [np.argmin] and [np.argmax] return the first extremal index *)

Lemma argmin_from_first l : ∀ pre bi bv,
  pre !! bi = Some bv → first_least pre bi →
  first_least (pre ++ l) (argmin_from l (length pre) bi bv).
Proof.
  induction l as [|v l IH]; intros pre bi bv Hbi Hfl; simpl.
  - rewrite app_nil_r. exact Hfl.
  - destruct Hfl as (v0 & Hv0 & Hle & Hlt).
    assert (v0 = bv) as -> by congruence.
    replace (pre ++ v :: l) with ((pre ++ [v]) ++ l) by (rewrite <- app_assoc; reflexivity).
    replace (S (length pre)) with (length (pre ++ [v])) by (rewrite length_app; simpl; lia).
    destruct (Z.ltb_spec v bv) as [Hv|Hv].
    + apply IH.
      * rewrite lookup_app_r by lia. rewrite Nat.sub_diag. reflexivity.
      * exists v. split; [|split].
        -- rewrite lookup_app_r by lia. rewrite Nat.sub_diag. reflexivity.
        -- intros j w Hj. destruct (decide (j < length pre)%nat) as [Hjl|Hjl].
           ++ rewrite lookup_app_l in Hj by lia. specialize (Hle j w Hj). lia.
           ++ rewrite lookup_app_r in Hj by lia.
              destruct (j - length pre)%nat; simpl in Hj; [|done].
              injection Hj as <-. lia.
        -- intros j w Hj Hjl. rewrite lookup_app_l in Hj by lia.
           specialize (Hle j w Hj). lia.
    + apply IH.
      * rewrite lookup_app_l; [exact Hv0|]. by eapply lookup_lt_Some.
      * assert (bi < length pre)%nat as Hb by (by eapply lookup_lt_Some).
        exists bv. split; [|split].
        -- rewrite lookup_app_l by lia. exact Hv0.
        -- intros j w Hj. destruct (decide (j < length pre)%nat) as [Hjl|Hjl].
           ++ rewrite lookup_app_l in Hj by lia. eauto.
           ++ rewrite lookup_app_r in Hj by lia.
              destruct (j - length pre)%nat; simpl in Hj; [|done].
              injection Hj as <-. lia.
        -- intros j w Hj Hjl. rewrite lookup_app_l in Hj by lia. eauto.
Qed.

Lemma argmin_first l i : argmin l = Ok i → first_least l i.
Proof.
  destruct l as [|v l]; simpl; [discriminate|].
  intros [= <-]. apply (argmin_from_first l [v] 0%nat v); [reflexivity|].
  exists v. split; [reflexivity|]. split.
  - intros [|j] w Hj; simpl in Hj; [injection Hj as <-; lia | done].
  - intros j w _ Hj. lia.
Qed.

Lemma argmax_from_opp l : ∀ i bi bv,
  argmax_from l i bi bv = argmin_from (Z.opp <$> l) i bi (- bv).
Proof.
  induction l as [|v l IH]; intros i bi bv; simpl; [reflexivity|].
  rewrite !IH.
  destruct (Z.ltb_spec bv v), (Z.ltb_spec (- v) (- bv)); (reflexivity || lia).
Qed.

Lemma argmax_opp l : argmax l = argmin (Z.opp <$> l).
Proof. destruct l; simpl; [reflexivity|]. by rewrite argmax_from_opp. Qed.

Lemma argmin_nonempty l : l ≠ [] → ∃ i, argmin l = Ok i.
Proof. destruct l; [done|]. simpl. eauto. Qed.

Lemma argmin_by f (pts : list Point) i :
  argmin (f <$> pts) = Ok i → ∃ p, pts !! i = Some p ∧ first_min_by f pts p.
Proof.
  intros H. apply argmin_first in H as (v & Hv & Hle & Hlt).
  rewrite list_lookup_fmap in Hv.
  destruct (pts !! i) as [p|] eqn:Hp; simpl in Hv; [|done].
  injection Hv as <-. exists p. split; [reflexivity|].
  exists i. split; [exact Hp|]. split.
  - intros q Hq. apply list_elem_of_lookup in Hq as [j Hj].
    apply (Hle j). rewrite list_lookup_fmap, Hj. reflexivity.
  - intros j q Hj Hji. apply (Hlt j); [|exact Hji].
    rewrite list_lookup_fmap, Hj. reflexivity.
Qed.

Lemma argmax_by f (pts : list Point) i :
  argmax (f <$> pts) = Ok i → ∃ p, pts !! i = Some p ∧ first_max_by f pts p.
Proof.
  rewrite argmax_opp, <- list_fmap_compose. intros H.
  apply argmin_by in H as (p & Hp & j & Hj & Hle & Hlt).
  exists p. split; [exact Hp|]. exists j. split; [exact Hj|]. split.
  - intros q Hq. specialize (Hle q Hq). simpl in Hle. lia.
  - intros k q Hk Hkj. specialize (Hlt k q Hk Hkj). simpl in Hlt. lia.
Qed.

(** The four slots of [order_points] on a non-empty input. *)
Lemma order_points_slots pts :
  pts ≠ [] →
  ∃ a b c d,
    order_points pts = Ok [to_f32 a; to_f32 b; to_f32 c; to_f32 d]
    ∧ first_min_by psum pts a ∧ first_min_by pdiff pts b
    ∧ first_max_by psum pts c ∧ first_max_by pdiff pts d.
Proof.
  intros Hne.
  assert (∀ f : Point → Z, f <$> pts ≠ []) as Hf by (intros f; by destruct pts).
  destruct (argmin_nonempty _ (Hf psum)) as [i1 H1].
  destruct (argmin_nonempty _ (Hf pdiff)) as [i2 H2].
  destruct (argmin_nonempty (Z.opp <$> (psum <$> pts))) as [i3 H3];
    [by destruct pts|].
  destruct (argmin_nonempty (Z.opp <$> (pdiff <$> pts))) as [i4 H4];
    [by destruct pts|].
  rewrite <- argmax_opp in H3, H4.
  destruct (argmin_by _ _ _ H1) as (a & Ha & Hfa).
  destruct (argmin_by _ _ _ H2) as (b & Hb & Hfb).
  destruct (argmax_by _ _ _ H3) as (c & Hc & Hfc).
  destruct (argmax_by _ _ _ H4) as (d & Hd & Hfd).
  exists a, b, c, d. split; [|done].
  unfold order_points. rewrite H1, H2, H3, H4. simpl.
  unfold getitem. rewrite Ha, Hb, Hc, Hd. reflexivity.
Qed.

Lemma first_min_by_ext f g pts p :
  (∀ q, q ∈ pts → f q = g q) → first_min_by f pts p → first_min_by g pts p.
Proof.
  intros E (i & Hi & Hle & Hlt).
  assert (p ∈ pts) as Hp by (apply list_elem_of_lookup; eauto).
  exists i. split; [exact Hi|]. split.
  - intros q Hq. rewrite <- !E by done. auto.
  - intros j q Hj Hji. rewrite <- !E; eauto.
    apply list_elem_of_lookup; eauto.
Qed.

Lemma first_max_by_ext f g pts p :
  (∀ q, q ∈ pts → f q = g q) → first_max_by f pts p → first_max_by g pts p.
Proof.
  intros E (i & Hi & Hle & Hlt).
  assert (p ∈ pts) as Hp by (apply list_elem_of_lookup; eauto).
  exists i. split; [exact Hi|]. split.
  - intros q Hq. rewrite <- !E by done. auto.
  - intros j q Hj Hji. rewrite <- !E; eauto.
    apply list_elem_of_lookup; eauto.
Qed.

Lemma first_min_max_opp f pts p :
  first_min_by f pts p ↔ first_max_by (λ q, - f q) pts p.
Proof.
  split; intros (i & Hi & Hle & Hlt); exists i; (split; [exact Hi|]); split.
  - intros q Hq. specialize (Hle q Hq). lia.
  - intros j q Hj Hji. specialize (Hlt j q Hj Hji). lia.
  - intros q Hq. specialize (Hle q Hq). simpl in Hle. lia.
  - intros j q Hj Hji. specialize (Hlt j q Hj Hji). simpl in Hlt. lia.
Qed.

Lemma first_min_least f pts p : first_min_by f pts p → least_by f pts p.
Proof.
  intros (i & Hi & Hle & _). split; [|exact Hle].
  apply list_elem_of_lookup; eauto.
Qed.

Lemma first_max_greatest f pts p : first_max_by f pts p → greatest_by f pts p.
Proof.
  intros (i & Hi & Hle & _). split; [|exact Hle].
  apply list_elem_of_lookup; eauto.
Qed.

Lemma least_by_perm f pts pts' p : pts ≡ₚ pts' → least_by f pts p → least_by f pts' p.
Proof.
  intros HP [Hin Hle]. split; [by rewrite <- HP|].
  intros q Hq. apply Hle. by rewrite HP.
Qed.

Lemma greatest_by_perm f pts pts' p :
  pts ≡ₚ pts' → greatest_by f pts p → greatest_by f pts' p.
Proof.
  intros HP [Hin Hle]. split; [by rewrite <- HP|].
  intros q Hq. apply Hle. by rewrite HP.
Qed.

(** With unique extremes the result of [order_points] depends on the set of
    points only. *)
Lemma order_points_perm pts pts' :
  pts ≠ [] → unique_extremes pts → pts ≡ₚ pts' →
  order_points pts' = order_points pts.
Proof.
  intros Hne (U1 & U2 & U3 & U4) HP.
  assert (pts' ≠ []) as Hne'.
  { intros ->. apply Permutation_nil_r in HP. done. }
  destruct (order_points_slots pts Hne) as (a & b & c & d & -> & Ha & Hb & Hc & Hd).
  destruct (order_points_slots pts' Hne')
    as (a' & b' & c' & d' & -> & Ha' & Hb' & Hc' & Hd').
  symmetry in HP.
  rewrite (U1 a' a), (U3 b' b), (U2 c' c), (U4 d' d);
    eauto using first_min_least, first_max_greatest, least_by_perm, greatest_by_perm.
Qed.

(** ** Concrete inputs *)

Lemma upright_pixels : Forall pixel upright.
Proof. pixels. Qed.

Lemma diamond_pixels : Forall pixel diamond.
Proof. pixels. Qed.

(** Every axis-aligned rectangle with sides of positive length has unique
    extremes. *)
Lemma axis_aligned_unique x y w h :
  0 < w → 0 < h → 0 <= x → 0 <= y → x + w < 2 ^ 24 → y + h < 2 ^ 24 →
  unique_extremes [(x, y); (x + w, y); (x + w, y + h); (x, y + h)].
Proof.
  intros Hw Hh Hx Hy Hxw Hyh.
  assert (∀ a b, 0 <= a < 2 ^ 24 → 0 <= b < 2 ^ 24 →
            psum (a, b) = a + b ∧ pdiff (a, b) = b - a) as Hkey.
  { intros a b Ha Hb. split; [apply psum_pixel | apply pdiff_pixel]; by split. }
  destruct (Hkey x y) as [S0 D0]; [lia..|].
  destruct (Hkey (x + w) y) as [S1 D1]; [lia..|].
  destruct (Hkey (x + w) (y + h)) as [S2 D2]; [lia..|].
  destruct (Hkey x (y + h)) as [S3 D3]; [lia..|].
  clear Hkey.
  set (pts := [(x, y); (x + w, y); (x + w, y + h); (x, y + h)]).
  assert ((x, y) ∈ pts ∧ (x + w, y) ∈ pts ∧ (x + w, y + h) ∈ pts ∧ (x, y + h) ∈ pts)
    as (I0 & I1 & I2 & I3) by (unfold pts; rewrite !elem_of_cons; auto 10).
  repeat split; intros p q [Hp Lp] [Hq Lq];
    pose proof (Lp _ I0) as P0; pose proof (Lp _ I1) as P1;
    pose proof (Lp _ I2) as P2; pose proof (Lp _ I3) as P3;
    pose proof (Lq _ I0) as Q0; pose proof (Lq _ I1) as Q1;
    pose proof (Lq _ I2) as Q2; pose proof (Lq _ I3) as Q3;
    clear Lp Lq I0 I1 I2 I3; unfold pts in Hp, Hq; split_members;
    try reflexivity; exfalso;
    rewrite ?S0, ?S1, ?S2, ?S3, ?D0, ?D1, ?D2, ?D3 in P0, P1, P2, P3, Q0, Q1, Q2, Q3;
    lia.
Qed.

Lemma upright_unique : unique_extremes upright.
Proof. apply (axis_aligned_unique 0 0 10 5); lia. Qed.

(** ** C1: the roles [order_points] assigns *)

(** C1, as worded, fails: on the axis-aligned rectangle (0,0), (10,0),
    (10,5), (0,5) the second row of the result is (10,0), which does not
    minimise x - y (the point (0,5) does). *)
Lemma order_points_documented_roles_fail :
  length upright = 4%nat ∧ Forall pixel upright
  ∧ ∃ rect, order_points upright = Ok rect ∧ ¬ documented_roles upright rect.
Proof.
  split; [reflexivity|]. split; [apply upright_pixels|].
  exists [(0, 0); (10, 0); (10, 5); (0, 5)]. split; [reflexivity|].
  intros (tl & tr & br & bl & E & _ & _ & (i & _ & Hle & _) & _).
  injection E as <- <- <- <-.
  specialize (Hle (0, 5)). simpl in Hle.
  assert ((0, 5) ∈ upright) as Hin by (unfold upright; set_solver).
  specialize (Hle Hin). lia.
Qed.

(** C1, amended: for four points with pixel coordinates below 2^24,
    [order_points] puts in row 0 (top-left) the first point minimising
    x + y, in row 2 (bottom-right) the first point maximising x + y, in
    row 1 (top-right) the first point maximising x - y (least y - x, which
    is what [np.diff] computes) and in row 3 (bottom-left) the first point
    minimising x - y. *)
Theorem order_points_roles (pts : list Point) :
  length pts = 4%nat → Forall pixel pts →
  ∃ rect, order_points pts = Ok rect ∧ exchanged_roles pts rect.
Proof.
  intros Hlen Hpx.
  assert (pts ≠ []) as Hne by (by destruct pts).
  destruct (order_points_slots pts Hne) as (a & b & c & d & E & Ha & Hb & Hc & Hd).
  rewrite Forall_forall in Hpx.
  assert (∀ p f, first_min_by f pts p → to_f32 p = p) as Xmin.
  { intros p f Hp. apply to_f32_pixel, Hpx, (first_min_least f), Hp. }
  assert (∀ p f, first_max_by f pts p → to_f32 p = p) as Xmax.
  { intros p f Hp. apply to_f32_pixel, Hpx, (first_max_greatest f), Hp. }
  rewrite (Xmin a _ Ha), (Xmin b _ Hb), (Xmax c _ Hc), (Xmax d _ Hd) in E.
  exists [a; b; c; d]. split; [exact E|].
  exists a, b, c, d. split; [reflexivity|]. repeat split.
  - eapply first_min_by_ext; [|exact Ha]. intros q Hq. by apply psum_pixel, Hpx.
  - eapply first_max_by_ext; [|exact Hc]. intros q Hq. by apply psum_pixel, Hpx.
  - apply first_min_max_opp in Hb. eapply first_max_by_ext; [|exact Hb].
    intros q Hq. simpl. rewrite pdiff_pixel by (by apply Hpx). lia.
  - apply first_min_max_opp. eapply first_max_by_ext; [|exact Hd].
    intros q Hq. simpl. rewrite pdiff_pixel by (by apply Hpx). lia.
Qed.

Lemma order_points_roles_witness :
  length upright = 4%nat ∧ Forall pixel upright
  ∧ ∃ rect, order_points upright = Ok rect ∧ exchanged_roles upright rect.
Proof.
  split; [reflexivity|]. split; [pixels|].
  apply (order_points_roles upright); [reflexivity | pixels].
Defined.

(** ** C7: permutations of the input *)

(** C7, as worded, fails: the corners (1,0), (2,1), (1,2), (0,1) form a
    square, and listing them backwards changes the result. *)
Lemma order_points_permutation_fail :
  is_rectangle diamond ∧ diamond ≡ₚ diamond_rev
  ∧ order_points diamond_rev ≠ order_points diamond.
Proof.
  split; [|split].
  - simpl. repeat split; (lia || congruence).
  - change diamond_rev with (reverse diamond). symmetry. apply reverse_Permutation.
  - vm_compute. congruence.
Qed.

(** C7, amended: when the least and the greatest coordinate sum, and the
    least and the greatest coordinate difference, are each attained by one
    point only, [order_points] gives every permutation of the four points
    the same ordering. *)
Theorem order_points_permutation (pts pts' : list Point) :
  length pts = 4%nat → unique_extremes pts → pts ≡ₚ pts' →
  order_points pts' = order_points pts.
Proof.
  intros Hlen. apply order_points_perm. by destruct pts.
Qed.

Lemma order_points_permutation_witness :
  length upright = 4%nat ∧ unique_extremes upright
  ∧ upright ≡ₚ reverse upright
  ∧ order_points (reverse upright) = order_points upright.
Proof.
  assert (upright ≡ₚ reverse upright) as HP by (symmetry; apply reverse_Permutation).
  split; [reflexivity|]. split; [apply upright_unique|]. split; [exact HP|].
  apply (order_points_permutation upright (reverse upright));
    [reflexivity | apply upright_unique | exact HP].
Defined.

(** ** C10: the slots are input points, but not always four different ones *)

(** C10, as worded, fails: a float32 cannot hold 16777217, so on the input
    (16777217,0), (0,0), (1,1), (0,1) rows 1 and 2 of the result are
    (16777216,0), which is none of the four input points. *)
Lemma order_points_slot_not_input :
  length beyond_f32 = 4%nat
  ∧ ∃ rect r, order_points beyond_f32 = Ok rect
      ∧ rect !! 1%nat = Some r ∧ r ∉ beyond_f32.
Proof.
  split; [reflexivity|].
  exists [(0, 0); (16777216, 0); (16777216, 0); (0, 1)], (16777216, 0).
  split; [vm_compute; reflexivity|]. split; [reflexivity|].
  unfold beyond_f32. rewrite !not_elem_of_cons.
  repeat split; try congruence. apply not_elem_of_nil.
Qed.

(** C10, amended: for every four points with pixel coordinates below 2^24,
    each row of the result of [order_points] is one of the input points;
    and the rows need not be a permutation of the input: on the four
    distinct corners (1,0), (2,1), (1,2), (0,1), whose sums and differences
    are tied, (1,0) fills rows 0 and 1 and (0,1) is dropped. *)
Theorem order_points_slots_from_input :
  (∀ pts : list Point, length pts = 4%nat → Forall pixel pts →
     ∃ a b c d, order_points pts = Ok [a; b; c; d]
       ∧ a ∈ pts ∧ b ∈ pts ∧ c ∈ pts ∧ d ∈ pts)
  ∧ (∃ (pts : list Point) rect p q,
       length pts = 4%nat ∧ NoDup pts ∧ Forall pixel pts
       ∧ order_points pts = Ok rect
       ∧ rect !! 0%nat = Some p ∧ rect !! 1%nat = Some p
       ∧ q ∈ pts ∧ (q ∉ rect) ∧ ¬ (rect ≡ₚ pts)).
Proof.
  split.
  - intros pts Hlen Hpx.
    assert (pts ≠ []) as Hne by (by destruct pts).
    destruct (order_points_slots pts Hne) as (a & b & c & d & E & Ha & Hb & Hc & Hd).
    apply first_min_least in Ha as [Ha _], Hb as [Hb _].
    apply first_max_greatest in Hc as [Hc _], Hd as [Hd _].
    rewrite Forall_forall in Hpx.
    rewrite !to_f32_pixel in E by auto.
    exists a, b, c, d. done.
  - exists diamond, [(1, 0); (1, 0); (2, 1); (1, 2)], (1, 0), (0, 1).
    assert ((0, 1) ∉ [(1, 0); (1, 0); (2, 1); (1, 2)]) as Hnin.
    { rewrite !not_elem_of_cons. repeat split; try congruence. apply not_elem_of_nil. }
    repeat split; try reflexivity.
    + apply (bool_decide_unpack _). vm_compute. exact I.
    + apply diamond_pixels.
    + unfold diamond. set_solver.
    + exact Hnin.
    + intros HP. apply Hnin. rewrite HP. unfold diamond. set_solver.
Qed.

Lemma order_points_slots_from_input_witness :
  length diamond = 4%nat ∧ Forall pixel diamond
  ∧ ∃ a b c d, order_points diamond = Ok [a; b; c; d]
      ∧ a ∈ diamond ∧ b ∈ diamond ∧ c ∈ diamond ∧ d ∈ diamond.
Proof.
  split; [reflexivity|]. split; [pixels|].
  apply (proj1 order_points_slots_from_input diamond); [reflexivity | pixels].
Defined.

(** ** The float32 square root on short distances *)

Lemma sqrt_round_stays r P n s :
  0 < r → 0 < P → r + 1 <= P →
  r * r <= n < (r + 1) * (r + 1) →
  s * s <= n * (P * P) < (s + 1) * (s + 1) → 0 <= s →
  (r * P <= s ∧ s + 1 < (r + 1) * P)
  ∨ (r * P <= s ∧ s < (r + 1) * P ∧ ¬ (s < n * (P * P) - s * s)).
Proof.
  intros Hr HP HrP [Hn1 Hn2] [Hs1 Hs2] Hs.
  assert (r * P <= s) as A by nia.
  assert (s < (r + 1) * P) as B by nia.
  destruct (Z.eq_dec (s + 1) ((r + 1) * P)) as [E|NE].
  - right. split; [exact A|]. split; [exact B|].
    assert (n + 1 <= (r + 1) * (r + 1)) as Hn3 by lia.
    assert (n * (P * P) + P * P <= (s + 1) * (s + 1)) by (rewrite E; nia).
    nia.
  - left. lia.
Qed.

(** Below 2^24 the rounded root never reaches the next integer, so
    truncating it gives the integer square root. *)
Lemma np_sqrt_exact n : 0 <= n < 2 ^ 24 → Num.py_int (Num.np_sqrt n) = Z.sqrt n.
Proof.
  intros [Hn0 Hn]. unfold Num.np_sqrt.
  destruct (Z.leb_spec n 0) as [Hz|Hpos].
  { assert (n = 0) as -> by lia. reflexivity. }
  set (r := Z.sqrt n).
  assert (r * r <= n < (r + 1) * (r + 1)) as Hr.
  { pose proof (Z.sqrt_spec n Hn0) as H. unfold Z.succ in H. exact H. }
  assert (0 < r) as Hr0 by (apply Z.sqrt_pos; lia).
  assert (r < 2 ^ 12) as Hr12.
  { change (2 ^ 24) with 16777216 in Hn. change (2 ^ 12) with 4096. nia. }
  pose proof (Z.log2_spec r Hr0) as [Hk1 Hk2].
  assert (Z.log2 r < 12) as Hk by (apply Z.log2_lt_pow2; lia).
  pose proof (Z.log2_nonneg r) as Hk0.
  set (k := Z.log2 r + 1) in *.
  cbv zeta.
  destruct (Z.leb_spec 0 (24 - k)) as [Hsh|Hsh]; [|lia].
  set (sh := 24 - k) in *.
  set (P := 2 ^ sh).
  assert (0 < P) as HP by (apply Z.pow_pos_nonneg; lia).
  assert (4 ^ sh = P * P) as E4.
  { change 4 with (2 * 2). rewrite Z.pow_mul_l. reflexivity. }
  rewrite E4.
  assert (r + 1 <= P) as HrP.
  { unfold Z.succ in Hk2. fold k in Hk2.
    assert (2 ^ k <= 2 ^ sh) by (apply Z.pow_le_mono_r; lia).
    unfold P. lia. }
  set (N := n * (P * P)).
  assert (0 <= N) as HN by (unfold N; nia).
  pose proof (Z.sqrt_spec N HN) as Hs. unfold Z.succ in Hs.
  pose proof (Z.sqrt_nonneg N) as Hs0.
  set (s := Z.sqrt N) in *.
  unfold Num.py_int.
  destruct (sqrt_round_stays r P n s Hr0 HP HrP Hr Hs Hs0) as [[A B]|(A & B & C)].
  - destruct (Z.ltb_spec s (N - s * s)).
    + destruct (Z.leb_spec 0 sh); [|lia]. fold P.
      symmetry. apply Z.div_unique with (s + 1 - r * P); lia.
    + destruct (Z.leb_spec 0 sh); [|lia]. fold P.
      symmetry. apply Z.div_unique with (s - r * P); lia.
  - destruct (Z.ltb_spec s (N - s * s)); [unfold N in *; lia|].
    destruct (Z.leb_spec 0 sh); [|lia]. fold P.
    symmetry. apply Z.div_unique with (s - r * P); lia.
Qed.

Lemma py_int_np_sqrt_nonneg n : 0 <= Num.py_int (Num.np_sqrt n).
Proof.
  unfold Num.np_sqrt. destruct (n <=? 0); [done|]. cbv zeta.
  set (sh := 24 - (Z.log2 (Z.sqrt n) + 1)).
  destruct (Z.leb_spec 0 sh) as [Hsh|Hsh]; unfold Num.py_int.
  - destruct (Z.leb_spec 0 sh); [|lia].
    set (N := n * 4 ^ sh). pose proof (Z.sqrt_nonneg N).
    apply Z.div_pos; [|apply Z.pow_pos_nonneg; lia].
    destruct (Z.sqrt N <? N - Z.sqrt N * Z.sqrt N); lia.
  - destruct (Z.leb_spec 0 sh); [lia|].
    set (N := n / 4 ^ (- sh)). pose proof (Z.sqrt_nonneg N).
    apply Z.mul_nonneg_nonneg; [|apply Z.pow_nonneg; lia].
    destruct (_ <? _); lia.
Qed.

Lemma d2_nonneg a b : 0 <= d2 a b.
Proof.
  unfold d2. pose proof (Z.square_nonneg (a.1 - b.1)).
  pose proof (Z.square_nonneg (a.2 - b.2)). lia.
Qed.

Lemma d2_zero a b : d2 a b = 0 ↔ a = b.
Proof.
  destruct a as [x y], b as [x' y']. unfold d2. simpl. split.
  - intros H. pose proof (Z.square_nonneg (x - x')) as Hx.
    pose proof (Z.square_nonneg (y - y')) as Hy.
    assert ((x - x') * (x - x') = 0) as Ex by lia.
    assert ((y - y') * (y - y') = 0) as Ey by lia.
    apply Z.mul_eq_0 in Ex, Ey. f_equal; lia.
  - intros [= -> ->]. lia.
Qed.

Lemma np_dist_exact a b :
  d2 a b < 2 ^ 24 → Num.py_int (np_dist a b) = Z.sqrt (d2 a b).
Proof.
  intros H. pose proof (d2_nonneg a b) as H0. unfold d2 in *. unfold np_dist.
  set (dx := a.1 - b.1) in *. set (dy := a.2 - b.2) in *.
  change (2 ^ 24) with 16777216 in H.
  assert (Z.abs dx < 2 ^ 24) by (change (2 ^ 24) with 16777216; nia).
  assert (Z.abs dy < 2 ^ 24) by (change (2 ^ 24) with 16777216; nia).
  unfold Num.f32_sub. fold dx dy. rewrite !f32_round_small by done.
  unfold Num.f32_pow2. rewrite !f32_round_small
    by (change (2 ^ 24) with 16777216; nia).
  unfold Num.f32_add. rewrite f32_round_small
    by (change (2 ^ 24) with 16777216; nia).
  apply np_sqrt_exact. change (2 ^ 24) with 16777216. lia.
Qed.

(** ** Floor of a real square root *)

Lemma Zfloor_sqrt n : 0 <= n → Zfloor (sqrt (IZR n)) = Z.sqrt n.
Proof.
  intros Hn. pose proof (Z.sqrt_spec n Hn) as [H1 H2]. unfold Z.succ in H2.
  pose proof (Z.sqrt_nonneg n) as Hs. set (s := Z.sqrt n) in *.
  apply Zfloor_eq. split.
  - rewrite <- (sqrt_square (IZR s)) by (apply IZR_le; lia).
    apply sqrt_le_1_alt. rewrite <- mult_IZR. apply IZR_le. lia.
  - rewrite <- plus_IZR. rewrite <- (sqrt_square (IZR (s + 1))) by (apply IZR_le; lia).
    apply sqrt_lt_1_alt. split; [apply IZR_le; lia|].
    rewrite <- mult_IZR. apply IZR_lt. lia.
Qed.

Lemma Zfloor_Rmax x y : Zfloor (Rmax x y) = Z.max (Zfloor x) (Zfloor y).
Proof.
  destruct (Rle_dec x y) as [H|H].
  - rewrite Rmax_right by exact H. pose proof (Zfloor_le _ _ H). lia.
  - assert (y <= x)%R as H' by (apply Rlt_le, Rnot_le_lt, H).
    rewrite Rmax_left by exact H'. pose proof (Zfloor_le _ _ H'). lia.
Qed.

Lemma distance_d2 a b : distance a b = sqrt (IZR (d2 a b)).
Proof.
  unfold distance, d2. rewrite plus_IZR, !mult_IZR, !minus_IZR. reflexivity.
Qed.

Lemma Zfloor_distance a b : Zfloor (distance a b) = Z.sqrt (d2 a b).
Proof. rewrite distance_d2. apply Zfloor_sqrt, d2_nonneg. Qed.

Lemma sqrt_d2_pos a b : 1 <= Z.sqrt (d2 a b) ↔ a ≠ b.
Proof.
  pose proof (d2_nonneg a b). pose proof (Z.sqrt_pos (d2 a b)).
  rewrite <- d2_zero. lia.
Qed.

(** ** [four_point_transform] *)

Lemma four_point_transform_unfold V image pts tl tr br bl σ :
  order_points pts = Ok [tl; tr; br; bl] →
  four_point_transform V image pts σ
  = warp_onto V image [tl; tr; br; bl]
      (maxWidth tl tr br bl) (maxHeight tl tr br bl) σ.
Proof.
  intros E. unfold four_point_transform, mbind, M_bind, lift.
  rewrite E. reflexivity.
Qed.

Lemma np_dist_same a : Num.py_int (np_dist a a) = 0.
Proof. unfold np_dist, Num.f32_sub. rewrite !Z.sub_diag. reflexivity. Qed.

Lemma maxWidth_nonneg tl tr br bl : 0 <= maxWidth tl tr br bl.
Proof.
  unfold maxWidth, np_dist. cbv zeta.
  pose proof (py_int_np_sqrt_nonneg
    (Num.f32_add (Num.f32_pow2 (Num.f32_sub br.1 bl.1))
                 (Num.f32_pow2 (Num.f32_sub br.2 bl.2)))). lia.
Qed.

Lemma maxHeight_nonneg tl tr br bl : 0 <= maxHeight tl tr br bl.
Proof.
  unfold maxHeight, np_dist. cbv zeta.
  pose proof (py_int_np_sqrt_nonneg
    (Num.f32_add (Num.f32_pow2 (Num.f32_sub tr.1 br.1))
                 (Num.f32_pow2 (Num.f32_sub tr.2 br.2)))). lia.
Qed.

Lemma order_points_four pts :
  length pts = 4%nat → ∃ tl tr br bl, order_points pts = Ok [tl; tr; br; bl].
Proof.
  intros Hlen. assert (pts ≠ []) as Hne by (by destruct pts).
  destruct (order_points_slots pts Hne) as (a & b & c & d & E & _).
  rewrite E. eauto.
Qed.

(** *** C5: the size of the output *)

(** C5, as worded, fails twice.  The kite (5,0), (6,8), (5,20), (4,5) is a
    strictly convex quadrilateral with four distinct corners, no three on a
    line, yet rows 0 and 1 of [order_points] are both (5,0) and rows 2 and
    3 both (5,20): the width is 0.  And on a quadrilateral whose sides are
    5000 by 100 pixels apart the float32 computation gives width 5001,
    where the floor of the distance is 5000. *)
Lemma warp_size_fail :
  (strictly_convex kite ∧ nondegenerate kite
   ∧ ∃ tl tr br bl, order_points kite = Ok [tl; tr; br; bl]
       ∧ maxWidth tl tr br bl = 0)
  ∧ (nondegenerate wide
     ∧ ∃ tl tr br bl, order_points wide = Ok [tl; tr; br; bl]
         ∧ maxWidth tl tr br bl = 5001
         ∧ documented_width tl tr br bl = 5000).
Proof.
  split.
  - split; [left; vm_compute; done|]. split.
    + split; [apply (bool_decide_unpack _); vm_compute; exact I|].
      vm_compute. repeat split; congruence.
    + exists (5, 0), (5, 0), (5, 20), (5, 20). split; reflexivity.
  - split.
    + split; [apply (bool_decide_unpack _); vm_compute; exact I|].
      vm_compute. repeat split; congruence.
    + exists (0, 0), (5000, 100), (5000, 3100), (0, 3000).
      split; [reflexivity|]. split; [reflexivity|].
      unfold documented_width. rewrite Zfloor_Rmax, !Zfloor_distance.
      reflexivity.
Qed.

(** C5, amended: when the four sides that enter the computation are shorter
    than 4096 pixels, [four_point_transform] asks for an output of width
    floor(max(distance(br,bl), distance(tr,tl))) and height
    floor(max(distance(tr,br), distance(tl,bl))), for the corners (tl, tr,
    br, bl) that [order_points] returns; the width is at least 1 exactly
    when br differs from bl or tr from tl, the height exactly when tr
    differs from br or tl from bl. *)
Theorem warp_size V image (pts : list Point) tl tr br bl σ :
  order_points pts = Ok [tl; tr; br; bl] → short_sides tl tr br bl →
  four_point_transform V image pts σ
  = warp_onto V image [tl; tr; br; bl]
      (documented_width tl tr br bl) (documented_height tl tr br bl) σ
  ∧ maxWidth tl tr br bl = documented_width tl tr br bl
  ∧ maxHeight tl tr br bl = documented_height tl tr br bl
  ∧ (1 <= documented_width tl tr br bl ↔ br ≠ bl ∨ tr ≠ tl)
  ∧ (1 <= documented_height tl tr br bl ↔ tr ≠ br ∨ tl ≠ bl).
Proof.
  intros E (S1 & S2 & S3 & S4).
  assert (maxWidth tl tr br bl = documented_width tl tr br bl) as EW.
  { unfold maxWidth, documented_width. cbv zeta.
    rewrite Zfloor_Rmax, !Zfloor_distance, !np_dist_exact by done. reflexivity. }
  assert (maxHeight tl tr br bl = documented_height tl tr br bl) as EH.
  { unfold maxHeight, documented_height. cbv zeta.
    rewrite Zfloor_Rmax, !Zfloor_distance, !np_dist_exact by done. reflexivity. }
  split; [|split; [exact EW|split; [exact EH|split]]].
  - rewrite <- EW, <- EH. by apply four_point_transform_unfold.
  - unfold documented_width. rewrite Zfloor_Rmax, !Zfloor_distance.
    rewrite <- (sqrt_d2_pos br bl), <- (sqrt_d2_pos tr tl). lia.
  - unfold documented_height. rewrite Zfloor_Rmax, !Zfloor_distance.
    rewrite <- (sqrt_d2_pos tr br), <- (sqrt_d2_pos tl bl). lia.
Qed.

Lemma warp_size_witness :
  order_points upright = Ok [(0, 0); (10, 0); (10, 5); (0, 5)]
  ∧ short_sides (0, 0) (10, 0) (10, 5) (0, 5)
  ∧ maxWidth (0, 0) (10, 0) (10, 5) (0, 5)
    = documented_width (0, 0) (10, 0) (10, 5) (0, 5)
  ∧ 1 <= maxWidth (0, 0) (10, 0) (10, 5) (0, 5).
Proof.
  assert (short_sides (0, 0) (10, 0) (10, 5) (0, 5)) as HS
    by (repeat split; vm_compute; reflexivity).
  split; [reflexivity|]. split; [exact HS|].
  split; [|vm_compute; discriminate].
  apply (warp_size (toy []) 1%positive upright (0, 0) (10, 0) (10, 5) (0, 5)
           one_pixel eq_refl HS).
Defined.

(** *** C4: degenerate corner sets *)

(** C4, as worded, fails: on four equal points, with a library that accepts
    every size, [four_point_transform] raises nothing and returns a buffer
    of the requested size 0 x 0. *)
Lemma four_point_transform_degenerate_fail :
  degenerate (replicate 4 (3, 3))
  ∧ ¬ is_Raise (four_point_transform (toy []) 1%positive (replicate 4 (3, 3)) one_pixel)
  ∧ ∃ l σ', four_point_transform (toy []) 1%positive (replicate 4 (3, 3)) one_pixel
            = Ok (l, σ') ∧ σ' !! l = Some [].
Proof.
  split; [|split].
  - split; [reflexivity|]. intros [HND _].
    apply NoDup_cons in HND as [Hnin _]. apply Hnin. simpl. set_solver.
  - intros [e He]. vm_compute in He. discriminate.
  - eexists _, _. split; [vm_compute; reflexivity|]. vm_compute. reflexivity.
Qed.

(** C4, amended: [four_point_transform] validates nothing and has no error
    of its own for a degenerate input.  For every four points it computes a
    width and a height that are never negative, and 0 when the paired
    corners coincide (as for four equal points); it passes them to
    [getPerspectiveTransform] and [warpPerspective] and returns the buffer
    these produce, raising only when one of the two raises. *)
Theorem four_point_transform_unchecked V image (pts : list Point) σ :
  length pts = 4%nat →
  ∃ tl tr br bl,
    let w := maxWidth tl tr br bl in
    let h := maxHeight tl tr br bl in
    order_points pts = Ok [tl; tr; br; bl]
    ∧ 0 <= w ∧ 0 <= h
    ∧ (br = bl → tr = tl → w = 0)
    ∧ (tr = br → tl = bl → h = 0)
    ∧ four_point_transform V image pts σ = warp_onto V image [tl; tr; br; bl] w h σ
    ∧ (∀ m im warped,
         getPerspectiveTransform V [tl; tr; br; bl] (dst_corners w h) = Ok m →
         σ !! image = Some im →
         warpPerspective V im m (w, h) = Ok warped →
         four_point_transform V image pts σ
         = Ok (fresh (dom σ), <[fresh (dom σ) := warped]> σ)).
Proof.
  intros Hlen. destruct (order_points_four pts Hlen) as (tl & tr & br & bl & E).
  exists tl, tr, br, bl. cbv zeta.
  split; [exact E|]. split; [apply maxWidth_nonneg|]. split; [apply maxHeight_nonneg|].
  split; [|split; [|split]].
  - intros -> ->. unfold maxWidth. cbv zeta. rewrite !np_dist_same. reflexivity.
  - intros -> ->. unfold maxHeight. cbv zeta. rewrite !np_dist_same. reflexivity.
  - by apply four_point_transform_unfold.
  - intros m im warped Hm Him Hw.
    rewrite (four_point_transform_unfold _ _ _ _ _ _ _ _ E).
    unfold warp_onto, mbind, M_bind, lift, load, alloc. cbv zeta.
    rewrite Hm, Him, Hw. reflexivity.
Qed.

Lemma four_point_transform_unchecked_witness :
  length (replicate 4 ((3, 3) : Point)) = 4%nat
  ∧ ∃ tl tr br bl,
      order_points (replicate 4 (3, 3)) = Ok [tl; tr; br; bl]
      ∧ maxWidth tl tr br bl = 0 ∧ maxHeight tl tr br bl = 0.
Proof.
  split; [reflexivity|].
  destruct (four_point_transform_unchecked (toy []) 1%positive
              (replicate 4 (3, 3)) one_pixel eq_refl)
    as (tl & tr & br & bl & E & _ & _ & W & H & _).
  exists tl, tr, br, bl. split; [exact E|].
  vm_compute in E. injection E as <- <- <- <-.
  split; [apply W | apply H]; reflexivity.
Defined.

(** *** C9: the caller need not order the corners *)

(** C9: [four_point_transform] orders its input with [order_points] before
    anything else, so when the four extremal choices are unique every
    permutation of the four points gives the same result. *)
Theorem four_point_transform_permutation V image (pts pts' : list Point) σ :
  length pts = 4%nat → unique_extremes pts → pts ≡ₚ pts' →
  four_point_transform V image pts' σ = four_point_transform V image pts σ.
Proof.
  intros Hlen HU HP. unfold four_point_transform.
  rewrite (order_points_perm pts pts'); [reflexivity| |exact HU|exact HP].
  by destruct pts.
Qed.

Lemma four_point_transform_permutation_witness :
  length upright = 4%nat ∧ unique_extremes upright ∧ upright ≡ₚ reverse upright
  ∧ four_point_transform (toy []) 1%positive (reverse upright) one_pixel
    = four_point_transform (toy []) 1%positive upright one_pixel.
Proof.
  assert (upright ≡ₚ reverse upright) as HP by (symmetry; apply reverse_Permutation).
  split; [reflexivity|]. split; [apply upright_unique|]. split; [exact HP|].
  apply (four_point_transform_permutation (toy []) 1%positive upright
           (reverse upright) one_pixel eq_refl upright_unique HP).
Defined.

(** ** Ranking: [sorted(cnts, key=cv2.contourArea, reverse=True)] *)

Section Ranking.
Context {A : Type} (key : A → Q).

Lemma insert_desc_perm x l : insert_desc key x l ≡ₚ x :: l.
Proof.
  induction l as [|y l IH]; simpl; [done|].
  destruct (Qle_bool (key y) (key x)); [done|].
  rewrite IH. apply Permutation_swap.
Qed.

Lemma sorted_desc_perm l : sorted_desc key l ≡ₚ l.
Proof.
  induction l as [|x l IH]; simpl; [done|].
  rewrite insert_desc_perm. by rewrite IH.
Qed.

Lemma insert_desc_sorted x l :
  StronglySorted (λ a b, (key b <= key a)%Q) l →
  StronglySorted (λ a b, (key b <= key a)%Q) (insert_desc key x l).
Proof.
  induction 1 as [|y l HS IH HF]; simpl.
  - repeat constructor.
  - destruct (Qle_bool (key y) (key x)) eqn:E.
    + apply Qle_bool_iff in E. constructor; [by constructor|].
      constructor; [exact E|].
      eapply Forall_impl; [exact HF|]. intros b Hb. simpl in *.
      by eapply Qle_trans.
    + assert (key x <= key y)%Q as Hxy.
      { apply Qlt_le_weak, Qnot_le_lt. intros H. apply Qle_bool_iff in H. congruence. }
      constructor; [exact IH|].
      rewrite insert_desc_perm. by constructor.
Qed.

Lemma sorted_desc_sorted l :
  StronglySorted (λ a b, (key b <= key a)%Q) (sorted_desc key l).
Proof.
  induction l as [|x l IH]; simpl; [constructor|].
  by apply insert_desc_sorted.
Qed.

Lemma insert_desc_stable k x l :
  List.filter (λ c, Qeq_bool (key c) k) (insert_desc key x l)
  = List.filter (λ c, Qeq_bool (key c) k) (x :: l).
Proof.
  induction l as [|y l IH]; [reflexivity|]. simpl insert_desc.
  destruct (Qle_bool (key y) (key x)) eqn:E; [reflexivity|].
  change (List.filter ?f (y :: ?t))
    with (if f y then y :: List.filter f t else List.filter f t).
  rewrite IH. simpl.
  destruct (Qeq_bool (key x) k) eqn:Ex, (Qeq_bool (key y) k) eqn:Ey; try reflexivity.
  apply Qeq_bool_iff in Ex, Ey. exfalso.
  assert (Qle_bool (key y) (key x) = true); [|congruence].
  apply Qle_bool_iff. rewrite Ex, Ey. apply Qle_refl.
Qed.

Lemma sorted_desc_stable k l :
  List.filter (λ c, Qeq_bool (key c) k) (sorted_desc key l)
  = List.filter (λ c, Qeq_bool (key c) k) l.
Proof.
  induction l as [|x l IH]; [reflexivity|]. simpl sorted_desc.
  rewrite insert_desc_stable. simpl. by rewrite IH.
Qed.
End Ranking.

Example sorted_desc_keeps_ties_in_order :
  sorted_desc (λ c : Contour, inject_Z (Z.of_nat (length c)))
    [[(0, 0)]; [(1, 1); (1, 2)]; [(2, 2)]; [(3, 3); (3, 4); (3, 5)]]
  = [[(3, 3); (3, 4); (3, 5)]; [(1, 1); (1, 2)]; [(0, 0)]; [(2, 2)]].
Proof. reflexivity. Qed.

(** ** The loop stops at the first accepted candidate *)

Lemma scan_Some V l approx :
  scan V l = Some approx →
  ∃ (i : nat) c, l !! i = Some c ∧ approx = approx_of V c
    ∧ accepted V approx = true
    ∧ ∀ (j : nat) c', (j < i)%nat → l !! j = Some c' →
        accepted V (approx_of V c') = false.
Proof.
  induction l as [|c l IH]; simpl; [discriminate|].
  destruct (accepted V (approx_of V c)) eqn:E.
  - intros [= <-]. exists 0%nat, c. repeat split; try done. intros j c' Hj. lia.
  - intros H. destruct (IH H) as (i & c0 & Hi & -> & Hacc & Hbefore).
    exists (S i), c0. repeat split; try done.
    intros [|j] c' Hj Hc'; simpl in Hc'; [congruence|].
    apply (Hbefore j); [lia|done].
Qed.

Lemma scan_None V l c :
  scan V l = None → c ∈ l → accepted V (approx_of V c) = false.
Proof.
  induction l as [|c0 l IH]; simpl; intros H Hin; [by apply elem_of_nil in Hin|].
  destruct (accepted V (approx_of V c0)) eqn:E; [discriminate|].
  apply elem_of_cons in Hin as [->|Hin]; auto.
Qed.

Lemma scan_all_rejected V l :
  (∀ c, c ∈ l → accepted V (approx_of V c) = false) → scan V l = None.
Proof.
  induction l as [|c0 l IH]; simpl; intros H; [reflexivity|].
  rewrite (H c0) by set_solver. apply IH. intros c Hc. apply H. set_solver.
Qed.

Lemma accepted_true V approx :
  accepted V approx = true ↔ length approx = 4%nat ∧ isContourConvex V approx = true.
Proof.
  unfold accepted. rewrite andb_true_iff, Nat.eqb_eq. reflexivity.
Qed.

(** *** C6: only the five largest, largest first, first match wins *)

(** C6: the candidates examined are the first five of the contours sorted
    by area, largest first, equal areas in extraction order; the result is
    the approximation of the first of them that has four vertices and is
    convex, every candidate before it having been rejected and none after
    it examined; a contour ranked sixth or later is never the one
    selected. *)
Theorem selector_greedy_top5 V (cnts : list Contour) :
  let sorted := sorted_desc (contourArea V) cnts in
  ranked V cnts = take 5 sorted
  ∧ sorted ≡ₚ cnts
  ∧ StronglySorted (λ a b, (contourArea V b <= contourArea V a)%Q) sorted
  ∧ (∀ k, List.filter (λ c, Qeq_bool (contourArea V c) k) sorted
          = List.filter (λ c, Qeq_bool (contourArea V c) k) cnts)
  ∧ match scan V (ranked V cnts) with
    | Some approx =>
        ∃ (i : nat) c, (i < 5)%nat ∧ sorted !! i = Some c
          ∧ approx = approx_of V c
          ∧ length approx = 4%nat ∧ isContourConvex V approx = true
          ∧ ∀ (j : nat) c', (j < i)%nat → sorted !! j = Some c' →
              ¬ (length (approx_of V c') = 4%nat
                 ∧ isContourConvex V (approx_of V c') = true)
    | None =>
        ∀ (i : nat) c, (i < 5)%nat → sorted !! i = Some c →
          ¬ (length (approx_of V c) = 4%nat
             ∧ isContourConvex V (approx_of V c) = true)
    end.
Proof.
  intros sorted. split; [reflexivity|].
  split; [apply sorted_desc_perm|]. split; [apply sorted_desc_sorted|].
  split; [intros k; apply sorted_desc_stable|].
  unfold ranked. fold sorted.
  destruct (scan V (take 5 sorted)) as [approx|] eqn:E.
  - apply scan_Some in E as (i & c & Hi & -> & Hacc & Hbefore).
    apply lookup_take_Some in Hi as [Hi Hlt].
    apply accepted_true in Hacc as [H4 Hcv].
    exists i, c. repeat split; try done.
    intros j c' Hj Hc' Hacc'. apply accepted_true in Hacc'.
    rewrite (Hbefore j c') in Hacc'; [done|done|].
    apply lookup_take_Some. split; [done|lia].
  - intros i c Hi Hc Hacc. apply accepted_true in Hacc.
    rewrite (scan_None V (take 5 sorted) c E) in Hacc; [done|].
    apply list_elem_of_lookup. exists i. apply lookup_take_Some. done.
Qed.

(** ** [rectangle] and the caller's buffer *)

Lemma warp_onto_result V image rect w h σ l σ' :
  warp_onto V image rect w h σ = Ok (l, σ') →
  ∃ m im warped,
    getPerspectiveTransform V rect (dst_corners w h) = Ok m
    ∧ σ !! image = Some im
    ∧ warpPerspective V im m (w, h) = Ok warped
    ∧ l = fresh (dom σ) ∧ σ' = <[l := warped]> σ.
Proof.
  unfold warp_onto, mbind, M_bind, lift, load, alloc. cbv zeta.
  destruct (getPerspectiveTransform V rect (dst_corners w h)) as [m|] eqn:Em;
    [|discriminate].
  destruct (σ !! image) as [im|] eqn:Eim; [|discriminate].
  destruct (warpPerspective V im m (w, h)) as [warped|] eqn:Ew; [|discriminate].
  intros [= <- <-]. by exists m, im, warped.
Qed.

Lemma four_point_transform_result V image pts σ l σ' :
  four_point_transform V image pts σ = Ok (l, σ') →
  ∃ warped, l = fresh (dom σ) ∧ σ' = <[l := warped]> σ.
Proof.
  unfold four_point_transform, mbind at 1, M_bind at 1, lift at 1.
  destruct (order_points pts) as [rect|]; [|discriminate].
  destruct rect as [|tl [|tr [|br [|bl [|]]]]]; try discriminate.
  intros H. apply warp_onto_result in H as (m & im & warped & _ & _ & _ & -> & ->).
  by exists warped.
Qed.

(** [warp_onto] reads nothing of the store but the buffer it is given. *)
Lemma warp_onto_frame V i1 i2 rect w h (σ1 σ2 : gmap loc Image) :
  σ1 !! i1 = σ2 !! i2 →
  match warp_onto V i1 rect w h σ1, warp_onto V i2 rect w h σ2 with
  | Ok (l1, σ1'), Ok (l2, σ2') =>
      ∃ warped, l1 = fresh (dom σ1) ∧ σ1' = <[l1 := warped]> σ1
              ∧ l2 = fresh (dom σ2) ∧ σ2' = <[l2 := warped]> σ2
  | Raise e1, Raise e2 => e1 = e2
  | _, _ => False
  end.
Proof.
  intros E. unfold warp_onto, mbind, M_bind, lift, load, alloc. cbv zeta.
  destruct (getPerspectiveTransform V rect (dst_corners w h)) as [m|]; [|done].
  rewrite E. destruct (σ2 !! i2) as [im|]; [|done].
  destruct (warpPerspective V im m (w, h)) as [warped|]; [|done].
  by exists warped.
Qed.

Lemma four_point_transform_frame V i1 i2 pts (σ1 σ2 : gmap loc Image) :
  σ1 !! i1 = σ2 !! i2 →
  match four_point_transform V i1 pts σ1, four_point_transform V i2 pts σ2 with
  | Ok (l1, σ1'), Ok (l2, σ2') =>
      ∃ warped, l1 = fresh (dom σ1) ∧ σ1' = <[l1 := warped]> σ1
              ∧ l2 = fresh (dom σ2) ∧ σ2' = <[l2 := warped]> σ2
  | Raise e1, Raise e2 => e1 = e2
  | _, _ => False
  end.
Proof.
  intros E. unfold four_point_transform, mbind at 1 3, M_bind at 1 3, lift at 1 3.
  destruct (order_points pts) as [rect|]; [|done].
  destruct rect as [|tl [|tr [|br [|bl [|]]]]]; try done.
  by apply warp_onto_frame.
Qed.

Lemma fresh_not_in (σ : gmap loc Image) l im : σ !! l = Some im → fresh (dom σ) ≠ l.
Proof.
  intros H E. apply (is_fresh (dom σ)). rewrite E. apply elem_of_dom. eauto.
Qed.

Lemma scan_accepted_length V l sc : scan V l = Some sc → length sc = 4%nat.
Proof.
  intros H. apply scan_Some in H as (_ & _ & _ & _ & H & _).
  by apply accepted_true in H as [? _].
Qed.

(** The two branches of [rectangle], once the contours are known. *)
Lemma rectangle_not_found V img im cnts σ :
  σ !! img = Some im → contours_of V im = Ok cnts →
  scan V (ranked V cnts) = None →
  rectangle V img σ = Ok ((img, img), σ).
Proof.
  intros Him Hc Hs. unfold rectangle, mbind, M_bind, load, lift.
  rewrite Him, Hc, Hs. reflexivity.
Qed.

Lemma rectangle_found V img im cnts sc σ :
  σ !! img = Some im → contours_of V im = Ok cnts →
  scan V (ranked V cnts) = Some sc →
  rectangle V img σ
  = match drawContours V im [sc] 0 (0, 255, 0) 3 with
    | Ok im' =>
        match four_point_transform V img sc (<[img := im']> σ) with
        | Ok (w, σ') => Ok ((img, w), σ')
        | Raise e => Raise e
        end
    | Raise e => Raise e
    end.
Proof.
  intros Him Hc Hs. unfold rectangle, mbind at 1 2, M_bind at 1 2, load, lift.
  rewrite Him, Hc, Hs.
  unfold drawContours_on, mbind, M_bind, load, lift, store_at, mret, M_ret.
  rewrite Him. destruct (drawContours V im [sc] 0 (0, 255, 0) 3) as [im'|]; [|done].
  unfold reshape_4_2. rewrite (scan_accepted_length _ _ _ Hs). simpl.
  destruct (four_point_transform V img sc (<[img:=im']> σ)) as [[w σ']|]; done.
Qed.

(** *** C3: nothing found *)

(** C3: when the contours of the image have been extracted and none of the
    five ranked first has a convex four-vertex approximation, [rectangle]
    raises nothing and returns the caller's buffer twice, with every buffer
    left as it was. *)
Theorem rectangle_none_found V img im cnts (σ : gmap loc Image) :
  σ !! img = Some im → contours_of V im = Ok cnts →
  none_qualifies V (ranked V cnts) →
  rectangle V img σ = Ok ((img, img), σ).
Proof.
  intros Him Hc Hnone. apply (rectangle_not_found V img im cnts); try done.
  apply scan_all_rejected. intros c Hin.
  destruct (accepted V (approx_of V c)) eqn:E; [|reflexivity].
  apply accepted_true in E. by destruct (Hnone c Hin).
Qed.

Lemma rectangle_none_found_witness :
  one_pixel !! 1%positive = Some [[[0; 0; 0]]]
  ∧ contours_of (toy [[(0, 0); (4, 0); (0, 3)]]) [[[0; 0; 0]]]
    = Ok [[(0, 0); (4, 0); (0, 3)]]
  ∧ none_qualifies (toy [[(0, 0); (4, 0); (0, 3)]])
      (ranked (toy [[(0, 0); (4, 0); (0, 3)]]) [[(0, 0); (4, 0); (0, 3)]])
  ∧ rectangle (toy [[(0, 0); (4, 0); (0, 3)]]) 1%positive one_pixel
    = Ok ((1%positive, 1%positive), one_pixel).
Proof.
  assert (none_qualifies (toy [[(0, 0); (4, 0); (0, 3)]])
            (ranked (toy [[(0, 0); (4, 0); (0, 3)]]) [[(0, 0); (4, 0); (0, 3)]]))
    as Hnone.
  { intros c Hc.
    change (ranked _ _) with [[(0, 0); (4, 0); (0, 3)]] in Hc.
    apply list_elem_of_singleton in Hc as ->. intros [H _]. discriminate H. }
  split; [reflexivity|]. split; [reflexivity|]. split; [exact Hnone|].
  apply (rectangle_none_found (toy [[(0, 0); (4, 0); (0, 3)]]) 1%positive
           [[[0; 0; 0]]] [[(0, 0); (4, 0); (0, 3)]] one_pixel eq_refl eq_refl Hnone).
Defined.

(** *** C2: where the outline is drawn *)

(** C2, as worded, fails: with one rectangular contour found in a one-pixel
    image held in buffer 1, the annotated output is buffer 1 itself, and
    the contents of buffer 1 have changed. *)
Lemma rectangle_writes_input :
  ∃ annotated warped σ',
    rectangle (toy [upright]) 1%positive one_pixel = Ok ((annotated, warped), σ')
    ∧ annotated = 1%positive
    ∧ σ' !! 1%positive ≠ one_pixel !! 1%positive.
Proof.
  eexists _, _, _. split; [vm_compute; reflexivity|]. split; [reflexivity|].
  vm_compute. congruence.
Qed.

(** C2, amended: when [rectangle] finds a quadrilateral, [cv2.drawContours]
    draws the outline into the caller's buffer: the annotated output is that
    same buffer, which now holds the drawing, and no copy of it is made.
    The warped output is a new buffer, and every other buffer is left as it
    was. *)
Theorem rectangle_annotates_in_place V img im cnts sc im' (σ : gmap loc Image) :
  σ !! img = Some im → contours_of V im = Ok cnts →
  scan V (ranked V cnts) = Some sc →
  drawContours V im [sc] 0 (0, 255, 0) 3 = Ok im' →
  rectangle V img σ
  = match four_point_transform V img sc (<[img := im']> σ) with
    | Ok (w, σ') => Ok ((img, w), σ')
    | Raise e => Raise e
    end
  ∧ ∀ annotated warped σ',
      rectangle V img σ = Ok ((annotated, warped), σ') →
      annotated = img ∧ σ' !! img = Some im'
      ∧ warped ≠ img ∧ σ !! warped = None
      ∧ ∀ l, l ≠ img → l ≠ warped → σ' !! l = σ !! l.
Proof.
  intros Him Hc Hs Hd.
  assert (rectangle V img σ
          = match four_point_transform V img sc (<[img := im']> σ) with
            | Ok (w, σ') => Ok ((img, w), σ')
            | Raise e => Raise e
            end) as E.
  { rewrite (rectangle_found V img im cnts sc) by done. by rewrite Hd. }
  split; [exact E|]. intros annotated warped σ'. rewrite E.
  destruct (four_point_transform V img sc (<[img:=im']> σ)) as [[w σ1]|] eqn:F;
    [|discriminate].
  intros [= <- <- <-].
  apply four_point_transform_result in F as (wd & Hw & ->).
  assert (w ≠ img) as Hne.
  { rewrite Hw. apply (fresh_not_in _ _ im'). apply lookup_insert_eq. }
  split; [reflexivity|]. split; [|split; [exact Hne|split]].
  - rewrite lookup_insert_ne by done. apply lookup_insert_eq.
  - assert (w ∉ dom (<[img:=im']> σ)) as Hnd by (rewrite Hw; apply is_fresh).
    rewrite not_elem_of_dom, lookup_insert_ne in Hnd by done. exact Hnd.
  - intros l H1 H2. by rewrite !lookup_insert_ne.
Qed.

Lemma rectangle_annotates_in_place_witness :
  one_pixel !! 1%positive = Some [[[0; 0; 0]]]
  ∧ contours_of (toy [upright]) [[[0; 0; 0]]] = Ok [upright]
  ∧ scan (toy [upright]) (ranked (toy [upright]) [upright]) = Some upright
  ∧ drawContours (toy [upright]) [[[0; 0; 0]]] [upright] 0 (0, 255, 0) 3
    = Ok [[[0; 255; 0]]]
  ∧ rectangle (toy [upright]) 1%positive one_pixel
    = match four_point_transform (toy [upright]) 1%positive upright
              (<[1%positive := [[[0; 255; 0]]]]> one_pixel) with
      | Ok (w, σ') => Ok ((1%positive, w), σ')
      | Raise e => Raise e
      end.
Proof.
  repeat (split; [reflexivity|]).
  apply (rectangle_annotates_in_place (toy [upright]) 1%positive
           [[[0; 0; 0]]] [upright] upright [[[0; 255; 0]]] one_pixel
           eq_refl eq_refl eq_refl eq_refl).
Defined.

(** *** C8: determinism *)

(** C8: the two images [rectangle] returns (or the error it raises) are
    determined by the contents of the input image: two runs whose input
    buffers hold equal images give equal (annotated, warped) pairs,
    whatever else the two stores hold and wherever the buffers are. *)
Theorem rectangle_deterministic V img1 img2 (σ1 σ2 : gmap loc Image) :
  σ1 !! img1 = σ2 !! img2 →
  outputs (rectangle V img1 σ1) = outputs (rectangle V img2 σ2).
Proof.
  intros E. destruct (σ2 !! img2) as [im|] eqn:E2.
  - destruct (contours_of V im) as [cnts|e] eqn:Hc.
    + destruct (scan V (ranked V cnts)) as [sc|] eqn:Hs.
      * rewrite (rectangle_found V img1 im cnts sc), (rectangle_found V img2 im cnts sc)
          by done.
        destruct (drawContours V im [sc] 0 (0, 255, 0) 3) as [im'|]; [|done].
        pose proof (four_point_transform_frame V img1 img2 sc
                      (<[img1:=im']> σ1) (<[img2:=im']> σ2)) as F.
        rewrite !lookup_insert_eq in F. specialize (F eq_refl).
        destruct (four_point_transform V img1 sc (<[img1:=im']> σ1)) as [[w1 s1]|],
                 (four_point_transform V img2 sc (<[img2:=im']> σ2)) as [[w2 s2]|];
          try done; [|by subst].
        destruct F as (wd & Hw1 & -> & Hw2 & ->). simpl.
        assert (w1 ≠ img1) by (rewrite Hw1; apply (fresh_not_in _ _ im'), lookup_insert_eq).
        assert (w2 ≠ img2) by (rewrite Hw2; apply (fresh_not_in _ _ im'), lookup_insert_eq).
        rewrite !lookup_insert_eq, !(lookup_insert_ne _ w1), !(lookup_insert_ne _ w2),
          !lookup_insert_eq by done.
        reflexivity.
      * rewrite (rectangle_not_found V img1 im cnts), (rectangle_not_found V img2 im cnts)
          by done.
        simpl. by rewrite E, E2.
    + unfold rectangle, mbind, M_bind, load, lift. rewrite E, E2, Hc. reflexivity.
  - unfold rectangle, mbind, M_bind, load. rewrite E, E2. reflexivity.
Qed.

Lemma rectangle_deterministic_witness :
  one_pixel !! 1%positive
  = (<[7%positive := [[[0; 0; 0]]]]> (<[1%positive := []]> one_pixel)) !! 7%positive
  ∧ outputs (rectangle (toy [upright]) 1%positive one_pixel)
    = outputs (rectangle (toy [upright]) 7%positive
                 (<[7%positive := [[[0; 0; 0]]]]> (<[1%positive := []]> one_pixel))).
Proof.
  assert (one_pixel !! 1%positive
          = (<[7%positive := [[[0; 0; 0]]]]> (<[1%positive := []]> one_pixel)) !! 7%positive)
    as E by (vm_compute; reflexivity).
  split; [exact E|].
  apply (rectangle_deterministic (toy [upright]) 1%positive 7%positive one_pixel
           (<[7%positive := [[[0; 0; 0]]]]> (<[1%positive := []]> one_pixel)) E).
Defined.

(** * Further properties of the three functions *)

(** ** [order_points]: when it raises, what it returns *)

Lemma order_points_inv pts rect :
  order_points pts = Ok rect →
  ∃ (i0 i1 i2 i3 : nat) p0 p1 p2 p3,
    argmin (psum <$> pts) = Ok i0 ∧ argmax (psum <$> pts) = Ok i2
    ∧ argmin (pdiff <$> pts) = Ok i1 ∧ argmax (pdiff <$> pts) = Ok i3
    ∧ pts !! i0 = Some p0 ∧ pts !! i1 = Some p1
    ∧ pts !! i2 = Some p2 ∧ pts !! i3 = Some p3
    ∧ rect = [to_f32 p0; to_f32 p1; to_f32 p2; to_f32 p3].
Proof.
  unfold order_points, getitem. cbv zeta.
  destruct (argmin (psum <$> pts)) as [i0|] eqn:E0; [|discriminate]. simpl.
  destruct (pts !! i0) as [p0|] eqn:P0; [|discriminate]. simpl.
  destruct (argmax (psum <$> pts)) as [i2|] eqn:E2; [|discriminate]. simpl.
  destruct (pts !! i2) as [p2|] eqn:P2; [|discriminate]. simpl.
  destruct (argmin (pdiff <$> pts)) as [i1|] eqn:E1; [|discriminate]. simpl.
  destruct (pts !! i1) as [p1|] eqn:P1; [|discriminate]. simpl.
  destruct (argmax (pdiff <$> pts)) as [i3|] eqn:E3; [|discriminate]. simpl.
  destruct (pts !! i3) as [p3|] eqn:P3; [|discriminate]. simpl.
  intros [= <-]. exists i0, i1, i2, i3, p0, p1, p2, p3. by repeat split.
Qed.

Lemma order_points_intro pts (i0 i1 i2 i3 : nat) p0 p1 p2 p3 :
  argmin (psum <$> pts) = Ok i0 → argmax (psum <$> pts) = Ok i2 →
  argmin (pdiff <$> pts) = Ok i1 → argmax (pdiff <$> pts) = Ok i3 →
  pts !! i0 = Some p0 → pts !! i1 = Some p1 →
  pts !! i2 = Some p2 → pts !! i3 = Some p3 →
  order_points pts = Ok [to_f32 p0; to_f32 p1; to_f32 p2; to_f32 p3].
Proof.
  intros E0 E2 E1 E3 P0 P1 P2 P3. unfold order_points, getitem. cbv zeta.
  rewrite E0, E2, E1, E3. simpl. rewrite P0, P1, P2, P3. reflexivity.
Qed.

(** X1: [order_points] accepts any number of points but zero.  On the empty
    array it raises [ValueError] (from [np.argmin]); on every other input
    it returns exactly four rows. *)
Theorem order_points_raises_iff_empty (pts : list Point) :
  (order_points pts = Raise ValueError ↔ pts = [])
  ∧ (pts ≠ [] → ∃ rect, order_points pts = Ok rect ∧ length rect = 4%nat)
  ∧ (∀ e, order_points pts = Raise e → pts = [] ∧ e = ValueError).
Proof.
  assert (pts ≠ [] → ∃ rect, order_points pts = Ok rect ∧ length rect = 4%nat) as HOk.
  { intros Hne. destruct (order_points_slots pts Hne) as (a & b & c & d & E & _).
    rewrite E. eauto. }
  split; [|split; [exact HOk|]].
  - split; [|by intros ->].
    intros E. destruct pts as [|p pts]; [reflexivity|].
    destruct (HOk ltac:(done)) as (rect & E' & _). congruence.
  - intros e E. destruct pts as [|p pts]; [by injection E as <-|].
    destruct (HOk ltac:(done)) as (rect & E' & _). congruence.
Qed.

(** ** [order_points] and translations *)

Lemma argmin_from_shift c l : ∀ i bi bv,
  argmin_from ((λ v, v + c) <$> l) i bi (bv + c) = argmin_from l i bi bv.
Proof.
  induction l as [|v l IH]; intros i bi bv; simpl; [reflexivity|].
  rewrite !IH. destruct (Z.ltb_spec (v + c) (bv + c)), (Z.ltb_spec v bv);
    (reflexivity || lia).
Qed.

Lemma argmax_from_shift c l : ∀ i bi bv,
  argmax_from ((λ v, v + c) <$> l) i bi (bv + c) = argmax_from l i bi bv.
Proof.
  induction l as [|v l IH]; intros i bi bv; simpl; [reflexivity|].
  rewrite !IH. destruct (Z.ltb_spec (bv + c) (v + c)), (Z.ltb_spec bv v);
    (reflexivity || lia).
Qed.

Lemma argmin_shift c l : argmin ((λ v, v + c) <$> l) = argmin l.
Proof. destruct l; simpl; [reflexivity|]. by rewrite argmin_from_shift. Qed.

Lemma argmax_shift c l : argmax ((λ v, v + c) <$> l) = argmax l.
Proof. destruct l; simpl; [reflexivity|]. by rewrite argmax_from_shift. Qed.

Lemma keys_translate t pts :
  Forall pixel pts → Forall pixel (translate t pts) →
  psum <$> translate t pts = (λ v, v + (t.1 + t.2)) <$> (psum <$> pts)
  ∧ pdiff <$> translate t pts = (λ v, v + (t.2 - t.1)) <$> (pdiff <$> pts).
Proof.
  intros H1 H2. unfold translate in *. rewrite <- !list_fmap_compose.
  rewrite Forall_fmap in H2. rewrite Forall_forall in H1, H2.
  split; apply list_fmap_ext; intros i p Hp;
    assert (p ∈ pts) as Hin by (apply list_elem_of_lookup; eauto);
    specialize (H1 p Hin); specialize (H2 p Hin); simpl in *.
  - rewrite (psum_pixel _ H2), (psum_pixel _ H1). simpl. lia.
  - rewrite (pdiff_pixel _ H2), (pdiff_pixel _ H1). simpl. lia.
Qed.

Lemma np_dist_translate t (a b : FPoint) :
  np_dist (a.1 + t.1, a.2 + t.2) (b.1 + t.1, b.2 + t.2) = np_dist a b.
Proof.
  unfold np_dist, Num.f32_sub. simpl.
  replace (a.1 + t.1 - (b.1 + t.1)) with (a.1 - b.1) by lia.
  replace (a.2 + t.2 - (b.2 + t.2)) with (a.2 - b.2) by lia.
  reflexivity.
Qed.

(** X2: [order_points] commutes with translations.  When the points and the
    moved points both have pixel coordinates below 2^24, moving the input
    by a vector moves each of the four rows by that vector (the same input
    positions are chosen, ties included), and the width and height computed
    by [four_point_transform] do not change. *)
Theorem order_points_translate (t : Point) (pts : list Point) tl tr br bl :
  Forall pixel pts → Forall pixel (translate t pts) →
  order_points pts = Ok [tl; tr; br; bl] →
  order_points (translate t pts) = Ok (translate t [tl; tr; br; bl])
  ∧ ∃ tl' tr' br' bl', translate t [tl; tr; br; bl] = [tl'; tr'; br'; bl']
      ∧ maxWidth tl' tr' br' bl' = maxWidth tl tr br bl
      ∧ maxHeight tl' tr' br' bl' = maxHeight tl tr br bl.
Proof.
  intros H1 H2 E.
  split.
  - destruct (keys_translate t pts H1 H2) as [Ks Kd].
    apply order_points_inv in E
      as (i0 & i1 & i2 & i3 & p0 & p1 & p2 & p3
          & E0 & E2 & E1 & E3 & P0 & P1 & P2 & P3 & [= -> -> -> ->]).
    pose (mv := λ p : Point, (p.1 + t.1, p.2 + t.2)).
    assert (∀ (i : nat) p, pts !! i = Some p →
              translate t pts !! i = Some (mv p) ∧ to_f32 p = p
              ∧ to_f32 (mv p) = mv p) as Hmv.
    { intros i p Hp. split.
      { unfold translate. apply list_lookup_fmap_Some. by exists p. }
      assert (p ∈ pts) as Hin by (apply list_elem_of_lookup; eauto).
      rewrite Forall_forall in H1. unfold translate in H2.
      rewrite Forall_fmap, Forall_forall in H2.
      split; apply to_f32_pixel; [by apply H1 | by apply (H2 p)]. }
    destruct (Hmv _ _ P0) as (T0 & X0 & Y0), (Hmv _ _ P1) as (T1 & X1 & Y1),
             (Hmv _ _ P2) as (T2 & X2 & Y2), (Hmv _ _ P3) as (T3 & X3 & Y3).
    rewrite (order_points_intro (translate t pts) i0 i1 i2 i3
               (mv p0) (mv p1) (mv p2) (mv p3)); try done.
    + rewrite X0, X1, X2, X3, Y0, Y1, Y2, Y3. reflexivity.
    + by rewrite Ks, argmin_shift.
    + by rewrite Ks, argmax_shift.
    + by rewrite Kd, argmin_shift.
    + by rewrite Kd, argmax_shift.
  - eexists _, _, _, _. split; [reflexivity|].
    unfold maxWidth, maxHeight. cbv zeta. by rewrite !np_dist_translate.
Qed.

Lemma order_points_translate_witness :
  Forall pixel upright ∧ Forall pixel (translate (7, 3) upright)
  ∧ order_points upright = Ok [(0, 0); (10, 0); (10, 5); (0, 5)]
  ∧ order_points (translate (7, 3) upright)
    = Ok (translate (7, 3) [(0, 0); (10, 0); (10, 5); (0, 5)]).
Proof.
  assert (Forall pixel upright) as H1 by pixels.
  assert (Forall pixel (translate (7, 3) upright)) as H2 by pixels.
  split; [exact H1|]. split; [exact H2|]. split; [reflexivity|].
  apply (order_points_translate (7, 3) upright (0, 0) (10, 0) (10, 5) (0, 5)
           H1 H2 eq_refl).
Defined.

(** ** Axis-aligned rectangles *)

Lemma axis_rect_extremes x y w h :
  0 < w → 0 < h → 0 <= x → 0 <= y → x + w < 2 ^ 24 → y + h < 2 ^ 24 →
  Forall pixel (axis_rect x y w h)
  ∧ least_by psum (axis_rect x y w h) (x, y)
  ∧ least_by pdiff (axis_rect x y w h) (x + w, y)
  ∧ greatest_by psum (axis_rect x y w h) (x + w, y + h)
  ∧ greatest_by pdiff (axis_rect x y w h) (x, y + h).
Proof.
  intros Hw Hh Hx Hy Hxw Hyh.
  assert (Forall pixel (axis_rect x y w h)) as Hpx.
  { unfold axis_rect. repeat constructor; simpl; lia. }
  split; [exact Hpx|]. rewrite Forall_forall in Hpx.
  assert (∀ q, q ∈ axis_rect x y w h →
            psum q = q.1 + q.2 ∧ pdiff q = q.2 - q.1) as Hkey.
  { intros q Hq. split; [apply psum_pixel | apply pdiff_pixel]; auto. }
  assert ((x, y) ∈ axis_rect x y w h ∧ (x + w, y) ∈ axis_rect x y w h
          ∧ (x + w, y + h) ∈ axis_rect x y w h ∧ (x, y + h) ∈ axis_rect x y w h)
    as (I0 & I1 & I2 & I3) by (unfold axis_rect; rewrite !elem_of_cons; auto 10).
  destruct (Hkey _ I0) as [S0 D0], (Hkey _ I1) as [S1 D1],
           (Hkey _ I2) as [S2 D2], (Hkey _ I3) as [S3 D3].
  repeat split; try done; intros q Hq; destruct (Hkey q Hq) as [Sq Dq];
    rewrite ?Sq, ?Dq, ?S0, ?D0, ?S1, ?D1, ?S2, ?D2, ?S3, ?D3;
    unfold axis_rect in Hq; split_members; simpl; lia.
Qed.

(** X3: an axis-aligned rectangle comes out right whatever the order of its
    corners.  For the rectangle at (x, y), w wide and h high, with
    0 < w, h < 4096 and pixel coordinates below 2^24, every listing of its
    four corners is ordered as (x,y), (x+w,y), (x+w,y+h), (x,y+h), and
    [four_point_transform] asks the library for an output of exactly w by h
    pixels. *)
Theorem axis_rect_any_order V image (pts : list Point) x y w h σ :
  0 < w < 2 ^ 12 → 0 < h < 2 ^ 12 → 0 <= x → 0 <= y →
  x + w < 2 ^ 24 → y + h < 2 ^ 24 →
  pts ≡ₚ axis_rect x y w h →
  order_points pts = Ok (axis_rect x y w h)
  ∧ maxWidth (x, y) (x + w, y) (x + w, y + h) (x, y + h) = w
  ∧ maxHeight (x, y) (x + w, y) (x + w, y + h) (x, y + h) = h
  ∧ four_point_transform V image pts σ
    = warp_onto V image (axis_rect x y w h) w h σ.
Proof.
  intros [Hw Hw'] [Hh Hh'] Hx Hy Hxw Hyh HP.
  destruct (axis_rect_extremes x y w h) as (Hpx & L1 & L2 & G1 & G2); try done.
  pose proof (axis_aligned_unique x y w h Hw Hh Hx Hy Hxw Hyh) as (U1 & U2 & U3 & U4).
  fold (axis_rect x y w h) in U1, U2, U3, U4.
  assert (order_points pts = Ok (axis_rect x y w h)) as E.
  { rewrite (order_points_perm (axis_rect x y w h) pts); [|done|by repeat split|done].
    destruct (order_points_slots (axis_rect x y w h)) as (a & b & c & d & E & Ha & Hb & Hc & Hd);
      [done|].
    apply first_min_least in Ha, Hb. apply first_max_greatest in Hc, Hd.
    rewrite (U1 a _ Ha L1), (U3 b _ Hb L2), (U2 c _ Hc G1), (U4 d _ Hd G2) in E.
    rewrite Forall_forall in Hpx.
    rewrite !to_f32_pixel in E
      by (apply Hpx; unfold axis_rect; rewrite !elem_of_cons; auto 10).
    exact E. }
  assert (∀ a, 0 <= a < 2 ^ 12 → a * a < 2 ^ 24) as Hsq.
  { intros a Ha. change (2 ^ 12) with 4096 in Ha. change (2 ^ 24) with 16777216. nia. }
  assert (d2 (x + w, y + h) (x, y + h) = w * w) as D1 by (unfold d2; simpl; ring).
  assert (d2 (x + w, y) (x, y) = w * w) as D2 by (unfold d2; simpl; ring).
  assert (d2 (x + w, y) (x + w, y + h) = h * h) as D3 by (unfold d2; simpl; ring).
  assert (d2 (x, y) (x, y + h) = h * h) as D4 by (unfold d2; simpl; ring).
  assert (maxWidth (x, y) (x + w, y) (x + w, y + h) (x, y + h) = w) as EW.
  { unfold maxWidth. cbv zeta.
    rewrite !np_dist_exact by (rewrite ?D1, ?D2; apply Hsq; lia).
    rewrite D1, D2, Z.sqrt_square by lia. lia. }
  assert (maxHeight (x, y) (x + w, y) (x + w, y + h) (x, y + h) = h) as EH.
  { unfold maxHeight. cbv zeta.
    rewrite !np_dist_exact by (rewrite ?D3, ?D4; apply Hsq; lia).
    rewrite D3, D4, Z.sqrt_square by lia. lia. }
  split; [exact E|]. split; [exact EW|]. split; [exact EH|].
  rewrite (four_point_transform_unfold V image pts _ _ _ _ σ E), EW, EH.
  reflexivity.
Qed.

Lemma axis_rect_any_order_witness :
  [(30, 27); (10, 20); (10, 27); (30, 20)] ≡ₚ axis_rect 10 20 20 7
  ∧ order_points [(30, 27); (10, 20); (10, 27); (30, 20)] = Ok (axis_rect 10 20 20 7)
  ∧ maxWidth (10, 20) (30, 20) (30, 27) (10, 27) = 20
  ∧ maxHeight (10, 20) (30, 20) (30, 27) (10, 27) = 7.
Proof.
  assert ([(30, 27); (10, 20); (10, 27); (30, 20)] ≡ₚ axis_rect 10 20 20 7) as HP.
  { apply (bool_decide_unpack _). vm_compute. exact I. }
  split; [exact HP|].
  destruct (axis_rect_any_order (toy []) 1%positive
              [(30, 27); (10, 20); (10, 27); (30, 20)] 10 20 20 7 one_pixel)
    as (E & W & H & _); try done.
Defined.

(** ** A distance is 0 only between equal points, at any magnitude *)

Lemma f32_round_pos z : 0 < z → 0 < Num.f32_round z.
Proof.
  intros Hz. unfold Num.f32_round. rewrite (Z.abs_eq z) by lia.
  destruct (Z.leb_spec (Z.log2 z - 23) 0) as [He|He]; [exact Hz|].
  rewrite (Z.sgn_pos z Hz), Z.mul_1_l.
  set (e := Z.log2 z - 23) in *.
  assert (0 < 2 ^ e) as HP by (apply Z.pow_pos_nonneg; lia).
  pose proof (Z.log2_spec z Hz) as [Hlo _].
  assert (2 ^ e <= z) as Hle.
  { etransitivity; [|exact Hlo]. apply Z.pow_le_mono_r; lia. }
  assert (1 <= z / 2 ^ e) as Hq.
  { apply Z.div_le_lower_bound; lia. }
  apply Z.mul_pos_pos; [|exact HP].
  destruct ((2 ^ (e - 1) <? z mod 2 ^ e)
            || (z mod 2 ^ e =? 2 ^ (e - 1)) && Z.odd (z / 2 ^ e)); lia.
Qed.

Lemma f32_round_opp z : Num.f32_round (- z) = - Num.f32_round z.
Proof.
  unfold Num.f32_round. rewrite Z.abs_opp, Z.sgn_opp.
  destruct (Z.log2 (Z.abs z) - 23 <=? 0); lia.
Qed.

Lemma f32_round_zero_iff z : Num.f32_round z = 0 ↔ z = 0.
Proof.
  split; [|by intros ->].
  destruct (Z.lt_trichotomy z 0) as [H|[H|H]]; [|done|].
  - pose proof (f32_round_pos (- z) ltac:(lia)) as HP.
    rewrite f32_round_opp in HP. lia.
  - pose proof (f32_round_pos z H). lia.
Qed.

Lemma f32_round_nonneg z : 0 <= z → 0 <= Num.f32_round z.
Proof.
  intros Hz. destruct (Z.eq_dec z 0) as [->|Hne]; [done|].
  pose proof (f32_round_pos z ltac:(lia)). lia.
Qed.

Lemma py_int_np_sqrt_pos n : 0 < n → 1 <= Num.py_int (Num.np_sqrt n).
Proof.
  intros Hn. unfold Num.np_sqrt.
  destruct (Z.leb_spec n 0) as [?|_]; [lia|]. cbv zeta.
  assert (0 < Z.sqrt n) as Hr by (apply Z.sqrt_pos; lia).
  pose proof (Z.log2_spec _ Hr) as [Hlo _].
  pose proof (Z.log2_nonneg (Z.sqrt n)) as Hk.
  pose proof (Z.sqrt_spec n ltac:(lia)) as [Hs1 _].
  set (r := Z.sqrt n) in *. set (k := Z.log2 r) in *.
  destruct (Z.leb_spec 0 (24 - (k + 1))) as [Hsh|Hsh]; unfold Num.py_int.
  - destruct (Z.leb_spec 0 (24 - (k + 1))); [|lia].
    set (sh := 24 - (k + 1)) in *. set (P := 2 ^ sh).
    assert (0 < P) as HP by (apply Z.pow_pos_nonneg; lia).
    assert (4 ^ sh = P * P) as -> by (change 4 with (2 * 2); by rewrite Z.pow_mul_l).
    assert (P <= Z.sqrt (n * (P * P))) as Hs.
    { rewrite <- (Z.sqrt_square P) at 1 by lia. apply Z.sqrt_le_mono. nia. }
    apply Z.div_le_lower_bound; [lia|].
    destruct (_ <? _); lia.
  - destruct (Z.leb_spec 0 (24 - (k + 1))); [lia|].
    set (t := - (24 - (k + 1))) in *.
    assert (0 < 2 ^ t) as HP by (apply Z.pow_pos_nonneg; lia).
    assert (0 < 4 ^ t) as HP4 by (apply Z.pow_pos_nonneg; lia).
    assert (4 ^ t <= n) as Hle.
    { assert (4 ^ t = 2 ^ t * 2 ^ t) as -> by (change 4 with (2 * 2); by rewrite Z.pow_mul_l).
      assert (2 ^ t <= 2 ^ k) by (apply Z.pow_le_mono_r; lia). nia. }
    assert (1 <= n / 4 ^ t) as Hq by (apply Z.div_le_lower_bound; lia).
    assert (1 <= Z.sqrt (n / 4 ^ t)) as Hs.
    { change 1 with (Z.sqrt 1) at 1. by apply Z.sqrt_le_mono. }
    assert (1 <= (if (2 * Z.sqrt (n / 4 ^ t) + 1) * (2 * Z.sqrt (n / 4 ^ t) + 1)
                       * 4 ^ (t - 1) <? n
                  then Z.sqrt (n / 4 ^ t) + 1 else Z.sqrt (n / 4 ^ t))) as Hm
      by (destruct (_ <? _); lia).
    nia.
Qed.

Lemma np_dist_zero_iff (a b : FPoint) : Num.py_int (np_dist a b) = 0 ↔ a = b.
Proof.
  split; [|intros ->; apply np_dist_same].
  intros H. destruct a as [x y], b as [x' y']. unfold np_dist in H. simpl in H.
  set (sx := Num.f32_pow2 (Num.f32_sub x x')) in *.
  set (sy := Num.f32_pow2 (Num.f32_sub y y')) in *.
  assert (∀ u v, 0 <= Num.f32_pow2 (Num.f32_sub u v)
                 ∧ (Num.f32_pow2 (Num.f32_sub u v) = 0 → u = v)) as Hsq.
  { intros u v. unfold Num.f32_pow2, Num.f32_sub. split.
    - apply f32_round_nonneg, Z.square_nonneg.
    - intros E. apply (proj1 (f32_round_zero_iff _)) in E. apply Z.mul_eq_0 in E.
      assert (Num.f32_round (u - v) = 0) as E' by lia.
      apply (proj1 (f32_round_zero_iff _)) in E'. lia. }
  destruct (Hsq x x') as [Hx0 Hx], (Hsq y y') as [Hy0 Hy]. fold sx in Hx0, Hx.
  fold sy in Hy0, Hy.
  destruct (Z.eq_dec (Num.f32_add sx sy) 0) as [E|NE].
  - unfold Num.f32_add in E. apply (proj1 (f32_round_zero_iff _)) in E.
    f_equal; [apply Hx | apply Hy]; lia.
  - assert (0 <= Num.f32_add sx sy) by (apply f32_round_nonneg; lia).
    pose proof (py_int_np_sqrt_pos (Num.f32_add sx sy) ltac:(lia)). lia.
Qed.

Lemma maxWidth_zero_iff (tl tr br bl : FPoint) :
  maxWidth tl tr br bl = 0 ↔ br = bl ∧ tr = tl.
Proof.
  pose proof (py_int_np_sqrt_nonneg) as Hnn.
  rewrite <- (np_dist_zero_iff br bl), <- (np_dist_zero_iff tr tl).
  unfold maxWidth, np_dist. cbv zeta.
  pose proof (Hnn (Num.f32_add (Num.f32_pow2 (Num.f32_sub br.1 bl.1))
                               (Num.f32_pow2 (Num.f32_sub br.2 bl.2)))).
  pose proof (Hnn (Num.f32_add (Num.f32_pow2 (Num.f32_sub tr.1 tl.1))
                               (Num.f32_pow2 (Num.f32_sub tr.2 tl.2)))).
  lia.
Qed.

Lemma maxHeight_zero_iff (tl tr br bl : FPoint) :
  maxHeight tl tr br bl = 0 ↔ tr = br ∧ tl = bl.
Proof.
  pose proof (py_int_np_sqrt_nonneg) as Hnn.
  rewrite <- (np_dist_zero_iff tr br), <- (np_dist_zero_iff tl bl).
  unfold maxHeight, np_dist. cbv zeta.
  pose proof (Hnn (Num.f32_add (Num.f32_pow2 (Num.f32_sub tr.1 br.1))
                               (Num.f32_pow2 (Num.f32_sub tr.2 br.2)))).
  pose proof (Hnn (Num.f32_add (Num.f32_pow2 (Num.f32_sub tl.1 bl.1))
                               (Num.f32_pow2 (Num.f32_sub tl.2 bl.2)))).
  lia.
Qed.

(** X4: for every int32 input, however large its coordinates, the width
    that [four_point_transform] computes from the rows (tl, tr, br, bl) of
    [order_points] is 0 exactly when br = bl and tr = tl, and the height is
    0 exactly when tr = br and tl = bl; otherwise each is at least 1.  The
    float32 rounding of the differences, squares, sum and root never turns
    the distance between two different rows into 0 (with int32 entries
    every intermediate float32 is finite). *)
Theorem warp_size_zero_iff (pts : list Point) (tl tr br bl : FPoint) :
  Forall int32_point pts →
  order_points pts = Ok [tl; tr; br; bl] →
  (maxWidth tl tr br bl = 0 ↔ br = bl ∧ tr = tl)
  ∧ (maxHeight tl tr br bl = 0 ↔ tr = br ∧ tl = bl)
  ∧ (1 <= maxWidth tl tr br bl ↔ br ≠ bl ∨ tr ≠ tl)
  ∧ (1 <= maxHeight tl tr br bl ↔ tr ≠ br ∨ tl ≠ bl).
Proof.
  intros _ _.
  pose proof (maxWidth_nonneg tl tr br bl) as HW.
  pose proof (maxHeight_nonneg tl tr br bl) as HH.
  pose proof (maxWidth_zero_iff tl tr br bl) as EW.
  pose proof (maxHeight_zero_iff tl tr br bl) as EH.
  split; [exact EW|]. split; [exact EH|]. split.
  - destruct (Z.eq_dec (maxWidth tl tr br bl) 0) as [Z0|NZ].
    + destruct (proj1 EW Z0) as [E1 E2]. split; [lia | intros [?|?]; done].
    + split; [intros _|lia].
      destruct (decide (br = bl)) as [E1|?]; [|by left].
      destruct (decide (tr = tl)) as [E2|?]; [|by right].
      destruct NZ. apply EW. done.
  - destruct (Z.eq_dec (maxHeight tl tr br bl) 0) as [Z0|NZ].
    + destruct (proj1 EH Z0) as [E1 E2]. split; [lia | intros [?|?]; done].
    + split; [intros _|lia].
      destruct (decide (tr = br)) as [E1|?]; [|by left].
      destruct (decide (tl = bl)) as [E2|?]; [|by right].
      destruct NZ. apply EH. done.
Qed.

Lemma warp_size_zero_iff_witness :
  Forall int32_point kite
  ∧ order_points kite = Ok [(5, 0); (5, 0); (5, 20); (5, 20)]
  ∧ maxWidth (5, 0) (5, 0) (5, 20) (5, 20) = 0
  ∧ 1 <= maxHeight (5, 0) (5, 0) (5, 20) (5, 20).
Proof.
  assert (Forall int32_point kite) as Hin
    by (repeat constructor; unfold int32_point; simpl; lia).
  split; [exact Hin|]. split; [reflexivity|].
  destruct (warp_size_zero_iff kite (5, 0) (5, 0) (5, 20) (5, 20) Hin eq_refl)
    as (W & _ & _ & H).
  split; [apply W; done | apply H; left; congruence].
Defined.

Lemma pixel_keys_inj p q :
  pixel p → pixel q → psum p = psum q → pdiff p = pdiff q → p = q.
Proof.
  intros Hp Hq. rewrite !psum_pixel, !pdiff_pixel by done.
  destruct p, q. simpl. intros. f_equal; lia.
Qed.

(** X5: for points with pixel coordinates below 2^24, the size that
    [four_point_transform] computes is 0 by 0 exactly when all input points
    are one and the same point; any two different points among the input
    give a width or a height of at least 1. *)
Theorem warp_size_zero_only_for_one_point (pts : list Point) tl tr br bl :
  Forall pixel pts → order_points pts = Ok [tl; tr; br; bl] →
  (maxWidth tl tr br bl = 0 ∧ maxHeight tl tr br bl = 0)
  ↔ (∀ p q, p ∈ pts → q ∈ pts → p = q).
Proof.
  intros Hpx E. rewrite Forall_forall in Hpx.
  assert (pts ≠ []) as Hne by (intros ->; discriminate E).
  destruct (order_points_slots pts Hne) as (a & b & c & d & E' & Ha & Hb & Hc & Hd).
  apply first_min_least in Ha as [Ia La], Hb as [Ib Lb].
  apply first_max_greatest in Hc as [Ic Lc], Hd as [Id Ld].
  rewrite !to_f32_pixel in E' by auto.
  rewrite E' in E. injection E as <- <- <- <-.
  rewrite maxWidth_zero_iff, maxHeight_zero_iff. split.
  - intros [[Ecd Eba] [Ebc Ead]] p q Hp Hq. subst b c d.
    apply pixel_keys_inj; auto.
    + pose proof (La p Hp). pose proof (Lc p Hp).
      pose proof (La q Hq). pose proof (Lc q Hq). lia.
    + pose proof (Lb p Hp). pose proof (Ld p Hp).
      pose proof (Lb q Hq). pose proof (Ld q Hq). lia.
  - intros Hall. rewrite (Hall b a), (Hall c a), (Hall d a) by done. done.
Qed.

Lemma warp_size_zero_only_for_one_point_witness :
  Forall pixel (replicate 4 ((3, 3) : Point))
  ∧ order_points (replicate 4 (3, 3)) = Ok [(3, 3); (3, 3); (3, 3); (3, 3)]
  ∧ maxWidth (3, 3) (3, 3) (3, 3) (3, 3) = 0
  ∧ maxHeight (3, 3) (3, 3) (3, 3) (3, 3) = 0.
Proof.
  assert (Forall pixel (replicate 4 ((3, 3) : Point))) as Hpx by pixels.
  split; [exact Hpx|]. split; [reflexivity|].
  apply (warp_size_zero_only_for_one_point (replicate 4 (3, 3))
           (3, 3) (3, 3) (3, 3) (3, 3) Hpx eq_refl).
  intros p q Hp Hq. simpl in Hp, Hq. split_members; reflexivity.
Defined.

(** ** [four_point_transform] and the store *)

(** X8: [four_point_transform] never writes to a buffer that exists.  When
    it returns, its result is a buffer that did not exist before the call;
    the image it was given, and every other buffer, hold what they held. *)
Theorem four_point_transform_allocates_only V image (pts : list Point)
    (σ σ' : gmap loc Image) l :
  four_point_transform V image pts σ = Ok (l, σ') →
  σ !! l = None ∧ is_Some (σ' !! l)
  ∧ l ≠ image ∧ is_Some (σ !! image) ∧ σ' !! image = σ !! image
  ∧ ∀ l', l' ≠ l → σ' !! l' = σ !! l'.
Proof.
  intros H.
  assert (is_Some (σ !! image)) as [im Him].
  { revert H. unfold four_point_transform, mbind at 1, M_bind at 1, lift at 1.
    destruct (order_points pts) as [rect|]; [|discriminate].
    destruct rect as [|tl [|tr [|br [|bl [|]]]]]; try discriminate.
    intros H. apply warp_onto_result in H as (m & im & wd & _ & Him & _). eauto. }
  apply four_point_transform_result in H as (warped & Hl & ->).
  assert (σ !! l = None) as Hnone.
  { apply not_elem_of_dom. rewrite Hl. apply is_fresh. }
  assert (l ≠ image) as Hne by (intros ->; congruence).
  split; [exact Hnone|]. split; [rewrite lookup_insert_eq; eauto|].
  split; [exact Hne|]. split; [eauto|].
  split; [by rewrite lookup_insert_ne|].
  intros l' Hl'. by rewrite lookup_insert_ne.
Qed.

Lemma four_point_transform_allocates_only_witness :
  ∃ l σ', four_point_transform (toy []) 1%positive upright one_pixel = Ok (l, σ')
    ∧ σ' !! 1%positive = one_pixel !! 1%positive ∧ l ≠ 1%positive.
Proof.
  destruct (four_point_transform (toy []) 1%positive upright one_pixel)
    as [[l σ']|e] eqn:E; [|vm_compute in E; discriminate].
  exists l, σ'. split; [reflexivity|].
  destruct (four_point_transform_allocates_only (toy []) 1%positive upright
              one_pixel σ' l E) as (_ & _ & Hne & _ & Him & _).
  split; [exact Him | exact Hne].
Defined.

(** ** [rectangle]: what a successful run tells the caller *)

(** X6: in every successful run of [rectangle] the first result is the
    caller's own buffer, and the second result is that same buffer exactly
    when no quadrilateral was found, in which case no buffer has changed.
    A caller can therefore tell the two cases apart by comparing the two
    results for identity. *)
Theorem rectangle_found_by_identity V img im cnts (σ σ' : gmap loc Image)
    annotated warped :
  σ !! img = Some im → contours_of V im = Ok cnts →
  rectangle V img σ = Ok ((annotated, warped), σ') →
  annotated = img
  ∧ (warped = img ↔ scan V (ranked V cnts) = None)
  ∧ (warped = img → σ' = σ).
Proof.
  intros Him Hc. destruct (scan V (ranked V cnts)) as [sc|] eqn:Hs.
  - rewrite (rectangle_found V img im cnts sc) by done.
    destruct (drawContours V im [sc] 0 (0, 255, 0) 3) as [im'|]; [|discriminate].
    destruct (four_point_transform V img sc (<[img:=im']> σ)) as [[w σ1]|] eqn:F;
      [|discriminate].
    intros [= <- <- <-].
    apply four_point_transform_result in F as (wd & Hw & ->).
    assert (w ≠ img) as Hne.
    { rewrite Hw. apply (fresh_not_in _ _ im'), lookup_insert_eq. }
    split; [reflexivity|]. split; [split; [done|discriminate]|done].
  - rewrite (rectangle_not_found V img im cnts) by done.
    intros [= <- <- <-]. done.
Qed.

Lemma rectangle_found_by_identity_witness :
  ∃ annotated warped σ',
    rectangle (toy [upright]) 1%positive one_pixel = Ok ((annotated, warped), σ')
    ∧ annotated = 1%positive ∧ warped ≠ 1%positive.
Proof.
  destruct (rectangle (toy [upright]) 1%positive one_pixel)
    as [[[a w] σ']|e] eqn:E; [|vm_compute in E; discriminate].
  exists a, w, σ'. split; [reflexivity|].
  destruct (rectangle_found_by_identity (toy [upright]) 1%positive
              [[[0; 0; 0]]] [upright] one_pixel σ' a w eq_refl eq_refl E)
    as (Ha & Hw & _).
  split; [exact Ha|]. intros Hw'. apply Hw in Hw'. vm_compute in Hw'. discriminate.
Defined.

(** X7: when a quadrilateral is found, [rectangle] can fail only inside
    [drawContours], [getPerspectiveTransform] or [warpPerspective]:
    reshaping and ordering an accepted candidate never fail.  The image
    handed to [warpPerspective] is the caller's buffer after the outline has
    been drawn into it, not the image the caller passed in. *)
Theorem rectangle_found_result V img im cnts sc (σ : gmap loc Image) :
  σ !! img = Some im → contours_of V im = Ok cnts →
  scan V (ranked V cnts) = Some sc →
  ∃ tl tr br bl,
    order_points sc = Ok [tl; tr; br; bl]
    ∧ rectangle V img σ
      = match drawContours V im [sc] 0 (0, 255, 0) 3 with
        | Raise e => Raise e
        | Ok im' =>
            match getPerspectiveTransform V [tl; tr; br; bl]
                    (dst_corners (maxWidth tl tr br bl) (maxHeight tl tr br bl)) with
            | Raise e => Raise e
            | Ok m =>
                match warpPerspective V im' m
                        (maxWidth tl tr br bl, maxHeight tl tr br bl) with
                | Raise e => Raise e
                | Ok warped =>
                    Ok ((img, fresh (dom (<[img := im']> σ))),
                        <[fresh (dom (<[img := im']> σ)) := warped]>
                          (<[img := im']> σ))
                end
            end
        end.
Proof.
  intros Him Hc Hs.
  destruct (order_points_four sc (scan_accepted_length _ _ _ Hs))
    as (tl & tr & br & bl & E).
  exists tl, tr, br, bl. split; [exact E|].
  rewrite (rectangle_found V img im cnts sc) by done.
  destruct (drawContours V im [sc] 0 (0, 255, 0) 3) as [im'|]; [|reflexivity].
  rewrite (four_point_transform_unfold V img sc tl tr br bl _ E).
  unfold warp_onto, mbind, M_bind, lift, load, alloc. cbv zeta.
  destruct (getPerspectiveTransform V _ _) as [m|]; [|reflexivity].
  rewrite lookup_insert_eq.
  destruct (warpPerspective V im' m _) as [warped|]; reflexivity.
Qed.

Lemma rectangle_found_result_witness :
  one_pixel !! 1%positive = Some [[[0; 0; 0]]]
  ∧ contours_of (toy [upright]) [[[0; 0; 0]]] = Ok [upright]
  ∧ scan (toy [upright]) (ranked (toy [upright]) [upright]) = Some upright
  ∧ ∃ tl tr br bl, order_points upright = Ok [tl; tr; br; bl].
Proof.
  repeat (split; [reflexivity|]).
  destruct (rectangle_found_result (toy [upright]) 1%positive [[[0; 0; 0]]]
              [upright] upright one_pixel eq_refl eq_refl eq_refl)
    as (tl & tr & br & bl & E & _).
  by exists tl, tr, br, bl.
Defined.

(** ** The ranking *)

(** X9: the ranking keeps at most five contours, all of them contours of
    the input; none of the contours it leaves out has a larger area than
    one it keeps; and with five contours or fewer it keeps them all. *)
Theorem ranked_keeps_largest V (cnts : list Contour) :
  length (ranked V cnts) = (5 `min` length cnts)%nat
  ∧ (∀ c, c ∈ ranked V cnts → c ∈ cnts)
  ∧ ranked V cnts ++ drop 5 (sorted_desc (contourArea V) cnts) ≡ₚ cnts
  ∧ (∀ a b, a ∈ ranked V cnts →
       b ∈ drop 5 (sorted_desc (contourArea V) cnts) →
       (contourArea V b <= contourArea V a)%Q)
  ∧ ((length cnts ≤ 5)%nat → ranked V cnts ≡ₚ cnts).
Proof.
  unfold ranked. set (sorted := sorted_desc (contourArea V) cnts).
  assert (sorted ≡ₚ cnts) as HP by apply sorted_desc_perm.
  pose proof (sorted_desc_sorted (contourArea V) cnts) as HS. fold sorted in HS.
  split; [by rewrite length_take, HP|].
  split.
  { intros c Hc. rewrite <- HP. apply elem_of_take in Hc as (i & Hi & _).
    apply list_elem_of_lookup. eauto. }
  split; [by rewrite take_drop|].
  split.
  { intros a b Ha Hb. rewrite <- (take_drop 5 sorted) in HS.
    apply (StronglySorted_app_1_elem_of _ _ _ a b HS Ha Hb). }
  intros Hlen. rewrite firstn_all2; [exact HP|]. by rewrite HP.
Qed.

(** X10: with five contours or fewer, [rectangle]'s search finds a
    quadrilateral exactly when some contour of the image has a
    four-vertex convex approximation: the order of the areas decides which
    one is taken, never whether one is. *)
Theorem few_contours_found_iff V (cnts : list Contour) :
  (length cnts ≤ 5)%nat →
  (scan V (ranked V cnts) = None ↔ ∀ c, c ∈ cnts → ¬ qualifies V c)
  ∧ (is_Some (scan V (ranked V cnts)) ↔ ∃ c, c ∈ cnts ∧ qualifies V c).
Proof.
  intros Hlen.
  assert (ranked V cnts ≡ₚ cnts) as HP.
  { unfold ranked. rewrite firstn_all2; [apply sorted_desc_perm|].
    by rewrite sorted_desc_perm. }
  assert (scan V (ranked V cnts) = None ↔ ∀ c, c ∈ cnts → ¬ qualifies V c) as HN.
  { split.
    - intros Hs c Hc Hq. apply accepted_true in Hq.
      rewrite (scan_None V (ranked V cnts) c Hs) in Hq; [done|by rewrite HP].
    - intros Hall. apply scan_all_rejected. intros c Hc.
      destruct (accepted V (approx_of V c)) eqn:E; [|reflexivity].
      apply accepted_true in E. destruct (Hall c); [by rewrite <- HP|exact E]. }
  split; [exact HN|]. split.
  - intros [sc Hs]. apply scan_Some in Hs as (i & c & Hi & -> & Hacc & _).
    exists c. split.
    + rewrite <- HP. apply list_elem_of_lookup. eauto.
    + by apply accepted_true.
  - intros (c & Hc & Hq). destruct (scan V (ranked V cnts)) eqn:Hs; [eauto|].
    destruct (proj1 HN eq_refl c Hc Hq).
Qed.

Lemma few_contours_found_iff_witness :
  (length [triangle; upright] ≤ 5)%nat
  ∧ is_Some (scan (toy []) (ranked (toy []) [triangle; upright])).
Proof.
  assert (length [triangle; upright] ≤ 5)%nat as Hlen by (simpl; lia).
  split; [exact Hlen|].
  apply (proj2 (few_contours_found_iff (toy []) _ Hlen)).
  exists upright. split; [|split; reflexivity].
  rewrite !elem_of_cons. auto.
Defined.

Lemma ranked_keeps_largest_witness :
  (length [triangle; upright] ≤ 5)%nat
  ∧ ranked (toy []) [triangle; upright] ≡ₚ [triangle; upright].
Proof.
  assert (length [triangle; upright] ≤ 5)%nat as Hlen by (simpl; lia).
  split; [exact Hlen|].
  destruct (ranked_keeps_largest (toy []) [triangle; upright]) as (_ & _ & _ & _ & H).
  exact (H Hlen).
Defined.

(** ** [rectangle] and the other buffers *)

(** X11: whatever it finds, a successful run of [rectangle] deletes no
    buffer and writes to no existing buffer other than the one it was
    given. *)
Theorem rectangle_frame V img (σ σ' : gmap loc Image) annotated warped :
  rectangle V img σ = Ok ((annotated, warped), σ') →
  is_Some (σ !! img)
  ∧ dom σ ⊆ dom σ'
  ∧ ∀ l, l ≠ img → is_Some (σ !! l) → σ' !! l = σ !! l.
Proof.
  intros H.
  destruct (σ !! img) as [im|] eqn:Him;
    [|unfold rectangle, mbind, M_bind, load in H; rewrite Him in H; discriminate].
  destruct (contours_of V im) as [cnts|e] eqn:Hc;
    [|unfold rectangle, mbind, M_bind, load, lift in H; rewrite Him, Hc in H;
      discriminate].
  split; [eauto|].
  destruct (scan V (ranked V cnts)) as [sc|] eqn:Hs.
  - rewrite (rectangle_found V img im cnts sc) in H by done.
    destruct (drawContours V im [sc] 0 (0, 255, 0) 3) as [im'|]; [|discriminate].
    destruct (four_point_transform V img sc (<[img:=im']> σ)) as [[w σ1]|] eqn:F;
      [|discriminate].
    injection H as <- <- <-.
    apply four_point_transform_result in F as (wd & Hw & ->).
    split.
    + rewrite !dom_insert_L. set_solver.
    + intros l Hl [x Hx].
      assert (w ≠ l) as Hwl.
      { rewrite Hw. apply (fresh_not_in _ _ x). by rewrite lookup_insert_ne. }
      by rewrite !lookup_insert_ne.
  - rewrite (rectangle_not_found V img im cnts) in H by done.
    injection H as <- <- <-. done.
Qed.

Lemma rectangle_frame_witness :
  ∃ annotated warped σ',
    rectangle (toy [upright]) 7%positive
      (<[7%positive := [[[0; 0; 0]]]]> one_pixel) = Ok ((annotated, warped), σ')
    ∧ σ' !! 1%positive = Some [[[0; 0; 0]]].
Proof.
  destruct (rectangle (toy [upright]) 7%positive
              (<[7%positive := [[[0; 0; 0]]]]> one_pixel))
    as [[[a w] σ']|e] eqn:E; [|vm_compute in E; discriminate].
  exists a, w, σ'. split; [reflexivity|].
  destruct (rectangle_frame (toy [upright]) 7%positive _ σ' a w E) as (_ & _ & H).
  etransitivity; [apply (H 1%positive); [done | vm_compute; eauto] | reflexivity].
Defined.

(** ** [order_points] and the mirror image *)

Lemma fmap_opp_opp (l : list Z) : Z.opp <$> (Z.opp <$> l) = l.
Proof.
  rewrite <- list_fmap_compose. rewrite <- (list_fmap_id l) at 2.
  apply list_fmap_ext. intros i v _. simpl. lia.
Qed.

Lemma keys_transpose pts :
  Forall pixel pts →
  Forall pixel (transpose pts)
  ∧ psum <$> transpose pts = psum <$> pts
  ∧ pdiff <$> transpose pts = Z.opp <$> (pdiff <$> pts).
Proof.
  intros Hpx. rewrite Forall_forall in Hpx.
  assert (∀ p, p ∈ pts → pixel (p.2, p.1)) as Hsw.
  { intros p Hp. destruct (Hpx p Hp). by split. }
  split; [|split]; unfold transpose.
  - rewrite Forall_fmap, Forall_forall. intros p Hp. by apply Hsw.
  - rewrite <- list_fmap_compose. apply list_fmap_ext. intros i p Hp. simpl.
    assert (p ∈ pts) as Hin by (apply list_elem_of_lookup; eauto).
    rewrite (psum_pixel _ (Hsw p Hin)), (psum_pixel _ (Hpx p Hin)). simpl. lia.
  - rewrite <- !list_fmap_compose. apply list_fmap_ext. intros i p Hp. simpl.
    assert (p ∈ pts) as Hin by (apply list_elem_of_lookup; eauto).
    rewrite (pdiff_pixel _ (Hsw p Hin)), (pdiff_pixel _ (Hpx p Hin)). simpl. lia.
Qed.

(** X12: mirroring the input in the main diagonal (exchanging x and y, as
    when the image is transposed) leaves the top-left and bottom-right
    choices in place and exchanges top-right with bottom-left, ties
    included: for points with pixel coordinates below 2^24, if the input is
    ordered as (tl, tr, br, bl), the mirrored input is ordered as the
    mirror images of (tl, bl, br, tr). *)
Theorem order_points_transpose (pts : list Point) tl tr br bl :
  Forall pixel pts →
  order_points pts = Ok [tl; tr; br; bl] →
  order_points (transpose pts) = Ok (transpose [tl; bl; br; tr]).
Proof.
  intros Hpx E. destruct (keys_transpose pts Hpx) as (Hpx' & Ks & Kd).
  apply order_points_inv in E
    as (i0 & i1 & i2 & i3 & p0 & p1 & p2 & p3
        & E0 & E2 & E1 & E3 & P0 & P1 & P2 & P3 & [= -> -> -> ->]).
  pose (sw := λ p : Point, (p.2, p.1)).
  assert (∀ (i : nat) p, pts !! i = Some p →
            transpose pts !! i = Some (sw p) ∧ to_f32 p = p
            ∧ to_f32 (sw p) = sw p) as Hsw.
  { intros i p Hp. split.
    { unfold transpose. apply list_lookup_fmap_Some. by exists p. }
    assert (p ∈ pts) as Hin by (apply list_elem_of_lookup; eauto).
    rewrite Forall_forall in Hpx. unfold transpose in Hpx'.
    rewrite Forall_fmap, Forall_forall in Hpx'.
    split; apply to_f32_pixel; [by apply Hpx | by apply (Hpx' p)]. }
  destruct (Hsw _ _ P0) as (T0 & X0 & Y0), (Hsw _ _ P1) as (T1 & X1 & Y1),
           (Hsw _ _ P2) as (T2 & X2 & Y2), (Hsw _ _ P3) as (T3 & X3 & Y3).
  rewrite (order_points_intro (transpose pts) i0 i3 i2 i1
             (sw p0) (sw p3) (sw p2) (sw p1));
    [ rewrite X0, X1, X2, X3, Y0, Y1, Y2, Y3; reflexivity
    | by rewrite Ks | by rewrite Ks
    | by rewrite Kd, <- argmax_opp
    | by rewrite Kd, argmax_opp, fmap_opp_opp
    | done.. ].
Qed.

Lemma order_points_transpose_witness :
  Forall pixel diamond
  ∧ order_points diamond = Ok [(1, 0); (1, 0); (2, 1); (1, 2)]
  ∧ order_points (transpose diamond) = Ok (transpose [(1, 0); (1, 2); (2, 1); (1, 0)]).
Proof.
  assert (Forall pixel diamond) as Hpx by pixels.
  split; [exact Hpx|]. split; [reflexivity|].
  apply (order_points_transpose diamond (1, 0) (1, 0) (2, 1) (1, 2) Hpx eq_refl).
Defined.

Lemma order_points_raises_iff_empty_witness :
  diamond ≠ [] ∧ ∃ rect, order_points diamond = Ok rect ∧ length rect = 4%nat.
Proof.
  assert (diamond ≠ []) as Hne by discriminate.
  split; [exact Hne|].
  destruct (order_points_raises_iff_empty diamond) as (_ & H & _).
  exact (H Hne).
Defined.
